(** * mathdom: the AST <-> MathML bridge of [mathml/xmlterm.py]

    A shallow embedding of the emitter [SaxTerm] (AST to SAX events) and of
    the extractor [dom_to_tree] (DOM to AST), with the properties the
    specification states about them. *)

From Stdlib Require Import String Ascii List ZArith Bool Arith Lia Permutation.
From Stdlib Require Import DecimalString DecimalZ DecimalPos.
Import ListNotations.
Open Scope string_scope.
Open Scope list_scope.
Set Warnings "-register-all".

(** ** Python values

    The AST of the source is a tagged list: [[operator, operand, ...]],
    [['name', id]], [['const:integer', 1]], [['case', cond, value, default]],
    [['list', item, ...]], [['interval:closed', a, b]].  Lists hold sub-lists
    and scalar objects alike. *)

(** The two-part number classes of mathdom ([Complex(1+0.3j)] in the module
    docstring); their parts are kept as exact decimal text.  A [Decimal] is
    held as the text [str] gives for it ([VDecimal "0.5"] is both
    [Decimal('.5')] and [Decimal('0.5')]). *)
Inductive paircls := Complex | Rational | ENotation.

Inductive pyval :=
| VStr (s : string)
| VBool (b : bool)
| VInt (z : Z)
| VDecimal (text : string)
| VPair (cls : paircls) (part1 part2 : string)
| VList (items : list pyval).

(** What a [NotImplementedError] of the source complains about. *)
Inductive unsupported :=
| ConstantPair                       (* "Only MathDOM types are constant pairs." *)
| ConstantParts                      (* a binary constant that is not two-part *)
| PieceChildren (n : nat)            (* "piece element has %d children, 2 allowed" *)
| UnknownInPiecewise (name : string) (* "Unknown element in piecewise: %s" *)
| FunctionComposition                (* "function composition is not supported" *)
| ElementNotSupported (mtype : string). (* "%s elements are not supported" *)

(** [OutsideModel] marks the few places where the outcome depends on
    behaviour this development does not describe: the [repr] of a list or of
    a number pair, a number pair indexed as if it were a node, a missing XML
    attribute, a text node in the operator position of an apply element. *)
Inductive exn :=
| IndexError
| TypeError
| AttributeError
| ValueError
| NotImplementedError (what : unsupported)
| OutsideModel.

Inductive result (A : Type) :=
| Ok (a : A)
| Raise (e : exn).
Arguments Ok {A} a.
Arguments Raise {A} e.

Definition bind {A B} (r : result A) (k : A -> result B) : result B :=
  match r with
  | Ok a => k a
  | Raise e => Raise e
  end.

Notation "x <- r ;;; k" := (bind r (fun x => k))
  (at level 62, r at next level, right associativity).

(** [map(f, xs)] with a function that may raise: left to right, the first
    exception wins. *)
Definition map_result {A B} (f : A -> result B) : list A -> result (list B) :=
  fix go l :=
    match l with
    | [] => Ok []
    | x :: l' => y <- f x ;;; ys <- go l' ;;; Ok (y :: ys)
    end.

(** The digits of a decimal text, up to its exponent. *)
Fixpoint coefficient (text : string) : list ascii :=
  match text with
  | EmptyString => []
  | String c text' =>
    if (Ascii.eqb c "E" || Ascii.eqb c "e")%bool then [] else c :: coefficient text'
  end.

(** A [Decimal] is zero when its coefficient has no digit but [0]; the
    special values [NaN] and [Infinity] are not zero. *)
Definition decimal_is_zero (text : string) : bool :=
  forallb (fun c => existsb (Ascii.eqb c) ["0"; "."; "-"; "+"]%char) (coefficient text)
  && existsb (Ascii.eqb "0") (coefficient text).

Definition truthy (v : pyval) : bool :=
  match v with
  | VStr s => negb (s =? "")
  | VBool b => b
  | VInt z => negb (z =? 0)%Z
  | VDecimal text => negb (decimal_is_zero text)
  | VPair _ _ _ => true
  | VList l => match l with [] => false | _ => true end
  end.

(** [str(int)] and [int(str)]. *)
Definition str_of_int (z : Z) : string := NilZero.string_of_int (Z.to_int z).

Definition int_of_str (s : string) : result Z :=
  match NilZero.int_of_string s with
  | Some d => Ok (Z.of_int d)
  | None => Raise ValueError
  end.

(** [mkstr]: a string is returned as it is, anything else goes through
    [str]. *)
Definition mkstr (value : pyval) : result string :=
  match value with
  | VStr s => Ok s
  | VBool true => Ok "True"
  | VBool false => Ok "False"
  | VInt z => Ok (str_of_int z)
  | VDecimal text => Ok text
  | VPair _ _ _ => Raise OutsideModel
  | VList _ => Raise OutsideModel
  end.

(** ** Dictionaries

    A [dict] with string keys and values, as an association list with unique
    keys; [dict_of_pairs] is [dict(pairs)], where a later pair overwrites an
    earlier one with the same key. *)
Definition dict := list (string * string).

Fixpoint dict_get (d : dict) (k : string) : option string :=
  match d with
  | [] => None
  | (k', v) :: d' => if k' =? k then Some v else dict_get d' k
  end.

Fixpoint dict_set (d : dict) (k v : string) : dict :=
  match d with
  | [] => [(k, v)]
  | (k', v') :: d' => if k' =? k then (k, v) :: d' else (k', v') :: dict_set d' k v
  end.

Definition dict_of_pairs (pairs : list (string * string)) : dict :=
  fold_left (fun d kv => dict_set d (fst kv) (snd kv)) pairs [].

Definition _ELEMENT_CONSTANT_MAP : dict :=
  [ ("true", "true");
    ("false", "false");
    ("pi", "pi");
    ("i", "imaginaryi");
    ("e", "exponentiale") ].

Definition _FUNCTION_MAP : dict :=
  [ ("+", "plus");
    ("-", "minus");
    ("*", "times");
    ("/", "divide");
    ("^", "power");
    ("|", "factorof");
    ("=", "eq");
    ("<>", "neq");
    ("!=", "neq");
    (">", "gt");
    (">=", "geq");
    ("<=", "leq");
    ("<", "lt") ].

(** ** SAX events

    The content handler is modelled by the sequence of calls it receives. *)
Definition MATHML_NAMESPACE_URI : string := "http://www.w3.org/1998/Math/MathML".

Definition attributes := list (string * string).

Inductive event :=
| startDocument
| endDocument
| startPrefixMapping (prefix : option string) (uri : string)
| endPrefixMapping (prefix : option string)
| startElementNS (name : string * string) (qname : string) (attrs : attributes)
| characters (content : string)
| endElementNS (name : string * string) (qname : string).

(** An emitting computation: the events sent so far and, when the walk was
    cut short, the exception that ended it. *)
Record sax := Sax { sent : list event; raised : option exn }.

Definition ok : sax := Sax [] None.
Definition send (e : event) : sax := Sax [e] None.
Definition throw (e : exn) : sax := Sax [] (Some e).

Definition seq (a b : sax) : sax :=
  match raised a with
  | None => Sax (sent a ++ sent b) (raised b)
  | Some _ => a
  end.

Notation "a ;; b" := (seq a b) (at level 61, right associativity).

Definition for_each (f : pyval -> sax) : list pyval -> sax :=
  fix go l :=
    match l with
    | [] => ok
    | elem :: l' => f elem ;; go l'
    end.

(** ** The emitter [SaxTerm] *)

Definition NO_ATTR : attributes := [].

Definition map_operator (operator : string) : option string :=
  dict_get _FUNCTION_MAP operator.

Definition map_constant (name : string) : option string :=
  dict_get _ELEMENT_CONSTANT_MAP name.

(** [s[n:]] *)
Fixpoint slice_from (n : nat) (s : string) : string :=
  match n, s with
  | O, _ => s
  | S n', String _ s' => slice_from n' s'
  | S _, EmptyString => EmptyString
  end.

(** [s[:n]] *)
Definition slice_to (n : nat) (s : string) : string := substring 0 n s.

Definition _attributes (name value : string) : attributes := [(name, value)].

Definition _open_tag (name : string) (attr : attributes) : sax :=
  send (startElementNS (MATHML_NAMESPACE_URI, name) name attr).

Definition _close_tag (name : string) : sax :=
  send (endElementNS (MATHML_NAMESPACE_URI, name) name).

Definition _write_element (name : string) (content : option string)
    (attr : attributes) : sax :=
  let tag := (MATHML_NAMESPACE_URI, name) in
  send (startElementNS tag name attr) ;;
  match content with
  | Some c => if c =? "" then ok else send (characters c)
  | None => ok
  end ;;
  send (endElementNS tag name).

(** [tuple(value)]: the two parts of a number pair, the items of a list, the
    characters of a string; anything else is not iterable. *)
Definition py_tuple (value : pyval) : option (list pyval) :=
  match value with
  | VPair _ a b => Some [VDecimal a; VDecimal b]
  | VList l => Some l
  | VStr s => Some (map (fun c => VStr (String c "")) (list_ascii_of_string s))
  | _ => None
  end.

Definition _send_bin_constant (typename : string) (value : pyval) : sax :=
  match py_tuple value with
  | None => throw (NotImplementedError ConstantPair)
  | Some parts =>
    match map_result mkstr parts with
    | Raise e => throw e
    | Ok parts =>
      _open_tag "cn" (_attributes "type" typename) ;;
      match parts with
      | [] => throw IndexError
      | p0 :: parts' =>
        send (characters p0) ;;
        _write_element "sep" None NO_ATTR ;;
        match parts' with
        | [] => throw IndexError
        | p1 :: _ => send (characters p1) ;; _close_tag "cn"
        end
      end
    end
  end.

Section SaxTerm.
(** The bound method [self._recursive_tree_to_sax]. *)
Variable tree_to_sax : pyval -> sax.

(** [rest] is [tree[1:]] throughout. *)
Definition _send_case (rest : list pyval) : sax :=
  _open_tag "piecewise" NO_ATTR ;;
  _open_tag "piece" NO_ATTR ;;
  match rest with
  | cond :: value :: more =>
    tree_to_sax value ;;
    tree_to_sax cond ;;
    _close_tag "piece" ;;
    match more with
    | otherwise :: _ =>
      _open_tag "otherwise" NO_ATTR ;;
      tree_to_sax otherwise ;;
      _close_tag "otherwise"
    | [] => ok
    end ;;
    _close_tag "piecewise"
  | _ => throw IndexError
  end.

Definition _send_list (rest : list pyval) (list_type : string)
    (attr : attributes) : sax :=
  _open_tag list_type attr ;;
  for_each tree_to_sax rest ;;
  _close_tag list_type.

Definition _send_function (fname : string) (rest : list pyval) : sax :=
  _open_tag "apply" NO_ATTR ;;
  _write_element fname None NO_ATTR ;;
  for_each tree_to_sax rest ;;
  _close_tag "apply".

(** The body of [_recursive_tree_to_sax] for [tree = [operator] + rest]. *)
Definition dispatch (operator : string) (rest : list pyval) : sax :=
  match map_operator operator with
  | Some mapped_operator => _send_function mapped_operator rest
  | None =>
    if operator =? "name" then
      match rest with
      | [] => throw IndexError
      | v :: _ =>
        match mkstr v with
        | Raise e => throw e
        | Ok name =>
          match map_constant name with
          | Some constant => _write_element constant None NO_ATTR
          | None => _write_element "ci" (Some name) NO_ATTR
          end
        end
      end
    else if prefix "const:" operator then
      match rest with
      | [] => throw IndexError
      | v :: _ =>
        if operator =? "const:bool" then
          _write_element (if truthy v then "true" else "false") None NO_ATTR
        else if (operator =? "const:complex") || (operator =? "const:rational") then
          _send_bin_constant (slice_from 6 operator) v
        else if operator =? "const:enotation" then
          _send_bin_constant "e-notation" v
        else
          match mkstr v with
          | Raise e => throw e
          | Ok content =>
            _write_element "cn" (Some content)
              (_attributes "type" (slice_from 6 operator))
          end
      end
    else if operator =? "case" then
      _send_case rest
    else if slice_to 4 operator =? "list" then
      _send_list rest "list" NO_ATTR
    else if slice_to 9 operator =? "interval:" then
      let closure :=
        if slice_from 9 operator =? "" then "closed" else slice_from 9 operator in
      _send_list rest "interval" (_attributes "closure" closure)
    else
      _send_function operator rest
  end.
End SaxTerm.

(** A string where a node is expected is indexed like a list: [tree[0]]
    is its first character and [tree[1:]] the characters after it, each a
    string of one character.  Such a string has no operands of its own. *)
Definition character_to_sax (elem : pyval) : sax :=
  match elem with
  | VStr (String c EmptyString) => dispatch (fun _ => throw TypeError) (String c "") []
  | _ => throw TypeError
  end.

Definition string_to_sax (tree : string) : sax :=
  match tree with
  | EmptyString => throw IndexError
  | String c tree' =>
    dispatch character_to_sax (String c "")
      (map (fun c' => VStr (String c' "")) (list_ascii_of_string tree'))
  end.

Fixpoint _recursive_tree_to_sax (tree : pyval) : sax :=
  match tree with
  | VList [] => throw IndexError
  | VList (VStr operator :: rest) => dispatch _recursive_tree_to_sax operator rest
  | VList (VList _ :: _) => throw TypeError
  | VList (VPair _ _ _ :: _) => throw OutsideModel
  | VList (_ :: _) => throw AttributeError
  | VStr s => string_to_sax s
  | VPair _ _ _ => throw OutsideModel
  | _ => throw TypeError
  end.

Definition tree_to_sax (tree : pyval) : sax :=
  send startDocument ;;
  send (startPrefixMapping None MATHML_NAMESPACE_URI) ;;
  _recursive_tree_to_sax tree ;;
  send (endPrefixMapping None) ;;
  send endDocument.

(** ** The document

    [dom_to_tree] reads a document through the element kind, the children,
    the text content and the attributes of its nodes. *)
Inductive node :=
| Element (localName : string) (attrs : attributes) (childNodes : list node)
| Text (data : string).

(** Modelled from the spec: [mathtype()], a method of the element class of
    mathdom (a module that is not part of the sources at hand); it is the
    [element_kind()] of the extractor's contract, the local name of the
    element. *)
Definition mathtype (localName : string) : string := localName.

(** Modelled from the spec: [valuetype()] of a [cn] element (mathdom, not
    part of the sources at hand): the [type] attribute, which selects the
    numeric-literal variant. *)
Definition valuetype (attrs : attributes) : result string :=
  match dict_get attrs "type" with
  | Some t => Ok t
  | None => Raise OutsideModel
  end.

(** Modelled from the spec: [value()] of a [cn] element (mathdom, not part
    of the sources at hand): a two-part body separated by [<sep/>] gives the
    binary constants, a body that is not two-part is unsupported; an integer
    is read as such and any other literal keeps its exact text. *)
Definition value (type : string) (children : list node) : result pyval :=
  let pair cls :=
    match children with
    | [Text a; Element "sep" _ []; Text b] => Ok (VPair cls a b)
    | _ => Raise (NotImplementedError ConstantParts)
    end in
  if type =? "complex" then pair Complex
  else if type =? "rational" then pair Rational
  else if type =? "e-notation" then pair ENotation
  else
    match children with
    | [Text s] => if type =? "integer" then z <- int_of_str s ;;; Ok (VInt z)
                  else Ok (VDecimal s)
    | _ => Raise AttributeError
    end.

(** Modelled from the spec: [closure()] of an [interval] element (mathdom,
    not part of the sources at hand): the closure read from the attribute. *)
Definition closure (attrs : attributes) : result string :=
  match dict_get attrs "closure" with
  | Some c => Ok c
  | None => Raise OutsideModel
  end.

(** [s.replace('-', '')] *)
Fixpoint remove_dashes (s : string) : string :=
  match s with
  | EmptyString => EmptyString
  | String c s' => if Ascii.eqb c "-" then remove_dashes s' else String c (remove_dashes s')
  end.

(** ** The lists [_recursive_piecewise] mutates

    [case], [last_case] and every [new_case] are references to list objects
    that are appended to while other lists already hold them.  The store
    maps an address to the items of the list at that address; an item is a
    finished value or a reference to another list of the store. *)
Inductive cell :=
| Item (v : pyval)
| Ref (address : nat).

Definition store := list (list cell).

Definition store_new (h : store) (items : list cell) : store * nat :=
  (h ++ [items], length h).

Fixpoint store_append (h : store) (address : nat) (c : cell) : store :=
  match h, address with
  | [], _ => []
  | items :: h', O => (items ++ [c]) :: h'
  | items :: h', S a => items :: store_append h' a c
  end.

Definition store_get (h : store) (address : nat) : list cell :=
  nth address h [].

Definition all_some {A} : list (option A) -> option (list A) :=
  fix go l :=
    match l with
    | [] => Some []
    | None :: _ => None
    | Some x :: l' => option_map (cons x) (go l')
    end.

(** The value a cell denotes: references are followed, [fuel] lists deep. *)
Fixpoint store_read (fuel : nat) (h : store) (c : cell) : option pyval :=
  match c with
  | Item v => Some v
  | Ref a =>
    match fuel with
    | O => None
    | S fuel' =>
      option_map VList (all_some (map (store_read fuel' h) (store_get h a)))
    end
  end.

(** ** The extractor [dom_to_tree] *)

Definition swap_pair (nv : string * string) : string * string := (snd nv, fst nv).

Section DomToTree.
(** [d.iteritems()]: the items of a dictionary in the order the
    interpreter walks its hash table. *)
Variable iteritems : dict -> list (string * string).

(** [dict((v,n) for (n,v) in d.iteritems())] *)
Definition inverted (d : dict) : dict :=
  dict_of_pairs (map swap_pair (iteritems d)).

(** [map_operator(name, name)] and [map_constant(mtype)] of [dom_to_tree]. *)
Definition dom_map_operator (name default : string) : string :=
  match dict_get (inverted _FUNCTION_MAP) name with
  | Some symbol => symbol
  | None => default
  end.

Definition dom_map_constant (mtype : string) : option string :=
  dict_get (inverted _ELEMENT_CONSTANT_MAP) mtype.

Section Recursive.
(** [_recursive_dom_to_tree], for the mutual recursion. *)
Variable dom_to_tree_rec : node -> result pyval.

(** The items of the new list [[ 'case', condition, value ]]. *)
Definition _piece_to_case (children : list node) : result (list pyval) :=
  match children with
  | [v; c] =>
    value <- dom_to_tree_rec v ;;;
    condition <- dom_to_tree_rec c ;;;
    Ok [VStr "case"; condition; value]
  | _ => Raise (NotImplementedError (PieceChildren (length children)))
  end.

(** The [for piece in piecewise.childNodes] loop; the state is the
    store, the address held by [last_case] and [otherwise]. *)
Definition piecewise_loop
  : list node -> store * nat * option pyval -> result (store * nat * option pyval) :=
  fix loop pieces st :=
    match pieces with
    | [] => Ok st
    | Text _ :: _ => Raise (NotImplementedError (UnknownInPiecewise "None"))
    | Element name _ children :: pieces' =>
      let '(h, last_case, otherwise) := st in
      if name =? "piece" then
        new_items <- _piece_to_case children ;;;
        let (h1, new_case) := store_new h (map Item new_items) in
        let h2 := store_append h1 last_case (Ref new_case) in
        loop pieces' (h2, new_case, otherwise)
      else if name =? "otherwise" then
        match children with
        | [] => Raise AttributeError
        | firstChild :: _ =>
          o <- dom_to_tree_rec firstChild ;;;
          loop pieces' (h, last_case, Some o)
        end
      else Raise (NotImplementedError (UnknownInPiecewise name))
    end.

Definition _recursive_piecewise (children : list node) : result pyval :=
  let (h0, case) := store_new [] [] in
  st <- piecewise_loop children (h0, case, None) ;;;
  let '(h, last_case, otherwise) := st in
  let return_case0 (h : store) :=
    match store_get h case with
    | [] => Raise IndexError
    | c :: _ =>
      match store_read (length h) h c with
      | Some v => Ok v
      | None => Raise OutsideModel
      end
    end in
  match otherwise with
  | Some o =>
    if truthy o then
      match store_get h last_case with
      | _ :: _ => return_case0 (store_append h last_case (Item o))
      | [] => Ok o
      end
    else return_case0 h
  | None => return_case0 h
  end.

(** The body of [_recursive_dom_to_tree] for an element. *)
Definition element_to_tree (mtype : string) (attrs : attributes)
    (children : list node) : result pyval :=
  match dom_map_constant mtype with
  | Some constant =>
    if (constant =? "true") || (constant =? "false") then
      Ok (VList [VStr "const:bool"; VBool (constant =? "true")])
    else
      Ok (VList [VStr "name"; VStr constant])
  | None =>
    if mtype =? "ci" then
      match children with
      | Text data :: _ => Ok (VList [VStr "name"; VStr data])
      | _ => Raise AttributeError
      end
    else if mtype =? "cn" then
      type <- valuetype attrs ;;;
      v <- value type children ;;;
      Ok (VList [VStr ("const:" ++ remove_dashes type); v])
    else if mtype =? "apply" then
      match children with
      | [] => Raise AttributeError
      | Text _ :: _ => Raise OutsideModel
      | Element name _ (_ :: _) :: _ =>
        Raise (NotImplementedError FunctionComposition)
      | Element name _ [] :: rest =>
        operands <- map_result dom_to_tree_rec rest ;;;
        Ok (VList (VStr (dom_map_operator name name) :: operands))
      end
    else if mtype =? "piecewise" then
      _recursive_piecewise children
    else if mtype =? "list" then
      list_items <- map_result dom_to_tree_rec children ;;;
      Ok (VList (VStr mtype :: list_items))
    else if mtype =? "interval" then
      list_items <- map_result dom_to_tree_rec children ;;;
      c <- closure attrs ;;;
      Ok (VList (VStr (mtype ++ ":" ++ c) :: list_items))
    else Raise (NotImplementedError (ElementNotSupported mtype))
  end.
End Recursive.

Fixpoint _recursive_dom_to_tree (element : node) : result pyval :=
  match element with
  | Text _ => Raise AttributeError
  | Element localName attrs children =>
    element_to_tree _recursive_dom_to_tree (mathtype localName) attrs children
  end.

(** [doc] is given by its [documentElement]. *)
Definition dom_to_tree (doc : node) : result pyval :=
  _recursive_dom_to_tree doc.
End DomToTree.

(** ** From events to a document

    Modelled from the spec: [MathDOM.fromMathmlSax] (mathdom, not part of the
    sources at hand) hands the emitter's events to the external document
    store, which builds the tree the bracketed events describe.  A frame is
    a node that is still open, with the children it has so far; the bottom
    frame is the document itself. *)
Definition frame := (string * attributes * list node)%type.

Definition document_frame : frame := ("#document", [], []).

Fixpoint build_dom (stack : list frame) (events : list event) : result node :=
  match events with
  | [] =>
    match stack with
    | [(_, _, [documentElement])] => Ok documentElement
    | _ => Raise ValueError
    end
  | startElementNS (_, localName) _ attrs :: events' =>
    build_dom ((localName, attrs, []) :: stack) events'
  | characters content :: events' =>
    match stack with
    | (n, a, children) :: stack' =>
      build_dom ((n, a, children ++ [Text content]) :: stack') events'
    | [] => Raise ValueError
    end
  | endElementNS _ _ :: events' =>
    match stack with
    | (n, a, children) :: (pn, pa, siblings) :: stack' =>
      build_dom ((pn, pa, siblings ++ [Element n a children]) :: stack') events'
    | _ => Raise ValueError
    end
  | _ :: events' => build_dom stack events'
  end.

Definition fromMathmlSax (events : list event) : result node :=
  build_dom [document_frame] events.

(** Emission followed by extraction: the document is built from the events
    of a walk that ended normally. *)
Definition emit_extract (iteritems : dict -> list (string * string)) (tree : pyval)
  : result pyval :=
  let walk := tree_to_sax tree in
  match raised walk with
  | Some e => Raise e
  | None => doc <- fromMathmlSax (sent walk) ;;; dom_to_tree iteritems doc
  end.

(** ** The nodes of the data model, as the tagged lists the source uses *)

Definition Apply (operator : string) (operands : list pyval) : pyval :=
  VList (VStr operator :: operands).

Definition Name (identifier : string) : pyval :=
  VList [VStr "name"; VStr identifier].

Definition Const (kind : string) (v : pyval) : pyval :=
  VList [VStr ("const:" ++ kind); v].

Definition Case (condition value : pyval) : pyval :=
  VList [VStr "case"; condition; value].

Definition CaseElse (condition value otherwise : pyval) : pyval :=
  VList [VStr "case"; condition; value; otherwise].

Definition ListOf (items : list pyval) : pyval :=
  VList (VStr "list" :: items).

Definition Interval (closure : string) (items : list pyval) : pyval :=
  VList (VStr ("interval:" ++ closure) :: items).

(** ** Predicates and functions of the statements *)

(** Whatever order the interpreter walks a dictionary in, it yields each
    item once. *)
Definition iteration_order (iteritems : dict -> list (string * string)) : Prop :=
  forall d, Permutation (iteritems d) d.

(** A bracketed event sequence: every element opened is closed by the same
    name, innermost first, text occurs inside an element only, and every
    element name lies in the MathML namespace.  [open] lists the elements
    that are open, innermost first. *)
Fixpoint well_nested (open : list string) (events : list event) : bool :=
  match events with
  | [] => match open with [] => true | _ :: _ => false end
  | startElementNS (uri, localName) qname _ :: events' =>
    (uri =? MATHML_NAMESPACE_URI) && (qname =? localName)
    && well_nested (localName :: open) events'
  | endElementNS (uri, localName) qname :: events' =>
    match open with
    | top :: open' =>
      (uri =? MATHML_NAMESPACE_URI) && (qname =? localName) && (top =? localName)
      && well_nested open' events'
    | [] => false
    end
  | characters _ :: events' =>
    match open with
    | _ :: _ => well_nested open events'
    | [] => false
    end
  | _ :: _ => false
  end.

(** The tags [_recursive_tree_to_sax] tests for before it takes the
    operator for a function identifier. *)
Definition node_tag (operator : string) : bool :=
  (operator =? "name") || prefix "const:" operator || (operator =? "case")
  || (slice_to 4 operator =? "list") || (slice_to 9 operator =? "interval:").

Definition function_identifier (operator : string) : bool :=
  match map_operator operator with
  | Some _ => false
  | None => negb (node_tag operator)
  end.

(** The value of a constant node fits its tag. *)
Definition constant_fits (operator : string) (v : pyval) : bool :=
  if operator =? "const:bool" then true
  else if (operator =? "const:complex") || (operator =? "const:rational")
          || (operator =? "const:enotation") then
    match v with VPair _ _ _ => true | _ => false end
  else
    match v with VStr _ | VBool _ | VInt _ | VDecimal _ => true | _ => false end.

(** The tagged lists that stand for a node of the data model: a name holds
    a string, a constant a value that fits its tag, a case a condition, a
    value and at most one default; every other tag (operator, function
    identifier, list, interval) heads a sequence of nodes. *)
Fixpoint well_formed (tree : pyval) : bool :=
  match tree with
  | VList (VStr operator :: rest) =>
    if operator =? "name" then
      match rest with [VStr _] => true | _ => false end
    else if prefix "const:" operator then
      match rest with [v] => constant_fits operator v | _ => false end
    else if operator =? "case" then
      match rest with
      | [c; v] => well_formed c && well_formed v
      | [c; v; o] => well_formed c && well_formed v && well_formed o
      | _ => false
      end
    else forallb well_formed rest
  | _ => false
  end.

Definition nonempty (s : string) : bool := negb (s =? "").

(** A constant whose value is of the class its kind names. *)
Definition canonical_constant (operator : string) (v : pyval) : bool :=
  let kind := slice_from 6 operator in
  match v with
  | VBool _ => kind =? "bool"
  | VInt _ => kind =? "integer"
  | VPair Complex a b => (kind =? "complex") && nonempty a && nonempty b
  | VPair Rational a b => (kind =? "rational") && nonempty a && nonempty b
  | VPair ENotation a b => (kind =? "enotation") && nonempty a && nonempty b
  | VDecimal text =>
    nonempty text && (remove_dashes kind =? kind)
    && negb (existsb (String.eqb kind)
               ["bool"; "integer"; "complex"; "rational"; "enotation"])
  | _ => false
  end.

Section Canonical.
Variable iteritems : dict -> list (string * string).

(** The symbol [dom_to_tree] gives a [neq] element. *)
Definition neq_symbol : string := dom_map_operator iteritems "neq" "neq".

Definition canonical_operator (operator : string) : bool :=
  match map_operator operator with
  | Some mapped => if mapped =? "neq" then operator =? neq_symbol else true
  | None =>
    nonempty operator && negb (node_tag operator)
    && negb (existsb (fun nv => snd nv =? operator) _FUNCTION_MAP)
  end.

(** The trees emission followed by extraction gives back: no name is
    empty or spells a boolean, constants are of the class their kind names,
    an inequality is written with [neq_symbol], a function identifier is
    neither a tag nor an element name of the operator table, a list is
    tagged [list] and an interval names its closure. *)
Fixpoint canonical (tree : pyval) : bool :=
  match tree with
  | VList (VStr operator :: rest) =>
    if operator =? "name" then
      match rest with
      | [VStr id] => nonempty id && negb (id =? "true") && negb (id =? "false")
      | _ => false
      end
    else if prefix "const:" operator then
      match rest with [v] => canonical_constant operator v | _ => false end
    else if operator =? "case" then
      match rest with
      | [c; v] => canonical c && canonical v
      | [c; v; o] => canonical c && canonical v && canonical o
      | _ => false
      end
    else if operator =? "list" then forallb canonical rest
    else if slice_to 9 operator =? "interval:" then
      nonempty (slice_from 9 operator) && forallb canonical rest
    else canonical_operator operator && forallb canonical rest
  | _ => false
  end.
End Canonical.

(** The shape the specification gives the extraction of a piecewise
    element: [Case(cond1, val1, Case(cond2, val2, ..., default))], for the
    clauses (condition, value) in order. *)
Fixpoint nested_case (clause : pyval * pyval) (more : list (pyval * pyval))
    (default : option pyval) : pyval :=
  match more with
  | [] =>
    match default with
    | Some d => CaseElse (fst clause) (snd clause) d
    | None => Case (fst clause) (snd clause)
    end
  | next :: more' =>
    CaseElse (fst clause) (snd clause) (nested_case next more' default)
  end.

(** ** [_recursive_piecewise] without the store

    What the loop collects, as values: the clauses (condition, value) of the
    pieces in order and the last default. *)
Definition case_items (clause : pyval * pyval) : list pyval :=
  [VStr "case"; fst clause; snd clause].

Section Collect.
Variable dom_to_tree_rec : node -> result pyval.

Definition piece_clause (children : list node) : result (pyval * pyval) :=
  match children with
  | [v; c] =>
    value <- dom_to_tree_rec v ;;;
    condition <- dom_to_tree_rec c ;;;
    Ok (condition, value)
  | _ => Raise (NotImplementedError (PieceChildren (length children)))
  end.

Definition collect
  : list node -> list (pyval * pyval) * option pyval
    -> result (list (pyval * pyval) * option pyval) :=
  fix loop pieces acc :=
    match pieces with
    | [] => Ok acc
    | Text _ :: _ => Raise (NotImplementedError (UnknownInPiecewise "None"))
    | Element name _ children :: pieces' =>
      if name =? "piece" then
        clause <- piece_clause children ;;;
        loop pieces' (fst acc ++ [clause], snd acc)
      else if name =? "otherwise" then
        match children with
        | [] => Raise AttributeError
        | firstChild :: _ =>
          o <- dom_to_tree_rec firstChild ;;;
          loop pieces' (fst acc, Some o)
        end
      else Raise (NotImplementedError (UnknownInPiecewise name))
    end.
End Collect.

Definition finish (clauses : list (pyval * pyval)) (otherwise : option pyval)
  : result pyval :=
  let default :=
    match otherwise with
    | Some o => if truthy o then Some o else None
    | None => None
    end in
  match clauses, default with
  | [], Some o => Ok o
  | [], None => Raise IndexError
  | clause :: more, _ => Ok (nested_case clause more default)
  end.

(** The store once the pieces have been read: address 0 is [case], the
    following addresses hold the lists of the pieces, each ending in the
    reference to the next; [tail] is what the last one ends in. *)
Fixpoint chain (address : nat) (clauses : list (pyval * pyval)) (tail : list cell)
  : store :=
  match clauses with
  | [] => []
  | clause :: clauses' =>
    match clauses' with
    | [] => [map Item (case_items clause) ++ tail]
    | _ :: _ =>
      (map Item (case_items clause) ++ [Ref (S address)])
        :: chain (S address) clauses' tail
    end
  end.

Definition chain_store (clauses : list (pyval * pyval)) (tail : list cell) : store :=
  match clauses with
  | [] => [[]]
  | _ :: _ => [Ref 1] :: chain 1 clauses tail
  end.

(** A piece element whose two children extract to the value and the
    condition of [clause]. *)
Inductive extracts_piece (rec : node -> result pyval) : node -> pyval * pyval -> Prop :=
| extracts_piece_intro (attrs : attributes) (v c : node) (value condition : pyval) :
    rec v = Ok value -> rec c = Ok condition ->
    extracts_piece rec (Element "piece" attrs [v; c]) (condition, value).

(** The children that follow the pieces: nothing, or an otherwise element
    whose first child extracts to the default. *)
Inductive extracts_otherwise (rec : node -> result pyval)
  : list node -> option pyval -> Prop :=
| extracts_no_otherwise : extracts_otherwise rec [] None
| extracts_an_otherwise (attrs : attributes) (firstChild : node) (others : list node)
    (default : pyval) :
    rec firstChild = Ok default ->
    extracts_otherwise rec [Element "otherwise" attrs (firstChild :: others)]
                       (Some default).

(** ** Events of a walk that may have been cut short *)

(** The elements still open after [events], innermost first, when the
    events are properly nested as far as they go: [None] when an element is
    closed that is not the innermost open one, when a name lies outside the
    MathML namespace, or when text occurs outside every element. *)
Fixpoint open_after (open : list string) (events : list event) : option (list string) :=
  match events with
  | [] => Some open
  | startElementNS (uri, localName) qname _ :: events' =>
    if (uri =? MATHML_NAMESPACE_URI) && (qname =? localName)
    then open_after (localName :: open) events'
    else None
  | endElementNS (uri, localName) qname :: events' =>
    match open with
    | top :: open' =>
      if (uri =? MATHML_NAMESPACE_URI) && (qname =? localName) && (top =? localName)
      then open_after open' events'
      else None
    | [] => None
    end
  | characters _ :: events' =>
    match open with
    | _ :: _ => open_after open events'
    | [] => None
    end
  | _ :: _ => None
  end.

(** [nests pending w]: started with the elements [pending] open, the walk
    [w] closes them all when it ends normally, and otherwise leaves a
    properly nested prefix. *)
Definition nests (pending : list string) (w : sax) : Prop :=
  forall s, exists s',
    open_after (pending ++ s) (sent w) = Some (s' ++ s)
    /\ (raised w = None -> s' = []).

(** The events, read [depth] elements deep, end with the event that closes
    the outermost of these elements (or, from depth 0, are exactly one
    element). *)
Fixpoint closes_at (depth : nat) (events : list event) : bool :=
  match events with
  | [] => false
  | startElementNS _ _ _ :: events' => closes_at (S depth) events'
  | endElementNS _ _ :: events' =>
    match depth with
    | 0 => false
    | 1 => match events' with [] => true | _ :: _ => false end
    | S d => closes_at d events'
    end
  | characters _ :: events' =>
    match depth with
    | 0 => false
    | S _ => closes_at depth events'
    end
  | _ :: _ => false
  end.

Definition one_element (events : list event) : bool := closes_at 0 events.

(** [level w]: inside an element, a walk that ends normally returns to the
    depth it started at, without closing that element. *)
Definition level (w : sax) : Prop :=
  raised w = None ->
  forall d k, closes_at (S d) (sent w ++ k) = closes_at (S d) k.

(** [closes pending w]: a walk that ends normally closes the [pending]
    elements it started in, the outermost with its last event. *)
Definition closes (pending : nat) (w : sax) : Prop :=
  raised w = None ->
  (forall d k, closes_at (pending + S d) (sent w ++ k) = closes_at (S d) k)
  /\ (1 <= pending -> closes_at pending (sent w) = true).



(** ** Children of a piecewise element, in any order *)

(** A child that is extracted: a piece gives a clause (condition, value),
    an otherwise element gives a default, the extraction of its first
    child. *)
Inductive extracts_child (rec : node -> result pyval)
  : node -> (pyval * pyval) + pyval -> Prop :=
| extracts_child_piece (attrs : attributes) (v c : node) (value condition : pyval) :
    rec v = Ok value -> rec c = Ok condition ->
    extracts_child rec (Element "piece" attrs [v; c]) (inl (condition, value))
| extracts_child_otherwise (attrs : attributes) (firstChild : node)
    (others : list node) (default : pyval) :
    rec firstChild = Ok default ->
    extracts_child rec (Element "otherwise" attrs (firstChild :: others)) (inr default).

Fixpoint clauses_of (items : list ((pyval * pyval) + pyval)) : list (pyval * pyval) :=
  match items with
  | [] => []
  | inl clause :: items' => clause :: clauses_of items'
  | inr _ :: items' => clauses_of items'
  end.

(** The last default among [items], or [init] when there is none. *)
Fixpoint last_default (items : list ((pyval * pyval) + pyval)) (init : option pyval)
  : option pyval :=
  match items with
  | [] => init
  | inl _ :: items' => last_default items' init
  | inr d :: items' => last_default items' (Some d)
  end.

(** The element kinds [_recursive_dom_to_tree] has a branch for. *)
Definition supported_elements : list string :=
  ["true"; "false"; "pi"; "imaginaryi"; "exponentiale";
   "ci"; "cn"; "apply"; "piecewise"; "list"; "interval"].

(** ** Invariants of the walks

    [steps w pre post]: a walk that ends normally takes the bracket checker
    from the open elements [pre] to the open elements [post]. *)
Definition steps (w : sax) (pre post : list string) : Prop :=
  raised w = None ->
  forall k, well_nested pre (sent w ++ k) = well_nested post k.

(** [moves w pre post]: the walk ends normally and takes the document
    store from the open nodes [pre] to the open nodes [post]. *)
Definition moves (w : sax) (pre post : list frame) : Prop :=
  raised w = None
  /\ forall k, build_dom pre (sent w ++ k) = build_dom post k.

(** [builds w nodes]: the walk ends normally and the document store adds
    [nodes] to the children of the innermost open node. *)
Definition builds (w : sax) (nodes : list node) : Prop :=
  forall n a children stack,
    moves w ((n, a, children) :: stack) ((n, a, children ++ nodes) :: stack).

(** [round_trips iteritems tree]: the walk of [tree] builds one element,
    and the extraction of that element is [tree]. *)
Definition round_trips (iteritems : dict -> list (string * string)) (tree : pyval)
  : Prop :=
  exists element,
    builds (_recursive_tree_to_sax tree) [element]
    /\ _recursive_dom_to_tree iteritems element = Ok tree.

(** * Properties *)

(** ** Sequencing *)

Lemma seq_assoc (a b c : sax) : (a ;; b) ;; c = a ;; (b ;; c).
Proof.
  destruct a as [sa [ea|]]; unfold seq; simpl; [reflexivity|].
  destruct b as [sb [eb|]]; simpl; [reflexivity|].
  now rewrite app_assoc.
Qed.

Lemma seq_ok_l (a : sax) : ok ;; a = a.
Proof. now destruct a. Qed.

Lemma seq_ok_r (a : sax) : a ;; ok = a.
Proof.
  destruct a as [sa [ea|]]; unfold seq; simpl; [reflexivity|].
  now rewrite app_nil_r.
Qed.

Lemma raised_seq (a b : sax) :
  raised (a ;; b) = None <-> raised a = None /\ raised b = None.
Proof.
  destruct a as [sa [ea|]]; unfold seq; simpl; intuition congruence.
Qed.

Lemma sent_seq (a b : sax) :
  raised a = None -> sent (a ;; b) = sent a ++ sent b.
Proof. unfold seq. now intros ->. Qed.

Lemma write_empty_element (name : string) (attr : attributes) :
  _write_element name None attr = _open_tag name attr ;; _close_tag name.
Proof. reflexivity. Qed.

(** ** The operator table (C7) *)

(** C7: the emitter maps the thirteen operator symbols to element names by
    the static table ([+] to plus, [-] to minus, [*] to times, [/] to
    divide, [^] to power, [|] to factorof, [=] to eq, [<>] and [!=] both to
    neq, [>] to gt, [>=] to geq, [<=] to leq, [<] to lt), and an Apply node
    of such a symbol is emitted as an apply element that holds the empty
    element of that name and then the events of the operands. *)
Theorem operator_table_emission (operands : list pyval) :
  map map_operator
      ["+"; "-"; "*"; "/"; "^"; "|"; "="; "<>"; "!="; ">"; ">="; "<="; "<"]
  = map Some
      ["plus"; "minus"; "times"; "divide"; "power"; "factorof"; "eq"; "neq";
       "neq"; "gt"; "geq"; "leq"; "lt"]
  /\ map (fun operator => _recursive_tree_to_sax (Apply operator operands))
      ["+"; "-"; "*"; "/"; "^"; "|"; "="; "<>"; "!="; ">"; ">="; "<="; "<"]
  = map (fun element =>
           _open_tag "apply" NO_ATTR ;;
           _open_tag element NO_ATTR ;; _close_tag element ;;
           for_each _recursive_tree_to_sax operands ;;
           _close_tag "apply")
      ["plus"; "minus"; "times"; "divide"; "power"; "factorof"; "eq"; "neq";
       "neq"; "gt"; "geq"; "leq"; "lt"].
Proof.
  split; [reflexivity|].
  cbn [map Apply _recursive_tree_to_sax].
  repeat (f_equal; [now (cbv [dispatch map_operator]; cbn [dict_get _FUNCTION_MAP];
                         cbv [_send_function]; rewrite write_empty_element, seq_assoc) |]).
  reflexivity.
Qed.

(** ** Function identifiers (C2) *)

Lemma function_identifier_dispatch (rec : pyval -> sax) (operator : string)
    (rest : list pyval) :
  function_identifier operator = true ->
  dispatch rec operator rest = _send_function rec operator rest.
Proof.
  unfold function_identifier, dispatch, node_tag.
  destruct (map_operator operator); [discriminate|].
  rewrite negb_true_iff, !orb_false_iff.
  intros [[[[-> ->] ->] ->] ->]. reflexivity.
Qed.

(** C2, as the specification states it, fails: the call [sin(x)] is not
    emitted with its identifier inside a ci element. *)
Lemma function_call_not_in_ci :
  map_operator "sin" = None
  /\ _recursive_tree_to_sax (Apply "sin" [Name "x"])
     <> (_open_tag "apply" NO_ATTR ;;
         _write_element "ci" (Some "sin") NO_ATTR ;;
         for_each _recursive_tree_to_sax [Name "x"] ;;
         _close_tag "apply").
Proof. split; [reflexivity | vm_compute; discriminate]. Qed.

(** C2, amended: an Apply node whose operator is neither in the operator
    table nor one of the node tags is emitted as an apply element that holds
    the empty element named by the identifier itself, then the events of the
    operands. *)
Theorem function_call_emission (operator : string) (operands : list pyval) :
  function_identifier operator = true ->
  _recursive_tree_to_sax (Apply operator operands)
  = _open_tag "apply" NO_ATTR ;;
    _open_tag operator NO_ATTR ;; _close_tag operator ;;
    for_each _recursive_tree_to_sax operands ;;
    _close_tag "apply".
Proof.
  intros H. cbn [Apply _recursive_tree_to_sax].
  rewrite (function_identifier_dispatch _ _ _ H).
  unfold _send_function. now rewrite write_empty_element, seq_assoc.
Qed.

Lemma function_call_emission_witness :
  function_identifier "sin" = true
  /\ _recursive_tree_to_sax (Apply "sin" [Name "x"])
     = _open_tag "apply" NO_ATTR ;;
       _open_tag "sin" NO_ATTR ;; _close_tag "sin" ;;
       for_each _recursive_tree_to_sax [Name "x"] ;;
       _close_tag "apply".
Proof.
  split; [reflexivity | apply (function_call_emission "sin" [Name "x"]); reflexivity].
Defined.

(** ** Induction over nested lists *)

Section NestedInduction.
Variable P : pyval -> Prop.
Hypothesis HStr : forall s, P (VStr s).
Hypothesis HBool : forall b, P (VBool b).
Hypothesis HInt : forall z, P (VInt z).
Hypothesis HDecimal : forall text, P (VDecimal text).
Hypothesis HPair : forall cls a b, P (VPair cls a b).
Hypothesis HList : forall items, Forall P items -> P (VList items).

Fixpoint pyval_nested_ind (v : pyval) : P v :=
  match v with
  | VStr s => HStr s
  | VBool b => HBool b
  | VInt z => HInt z
  | VDecimal text => HDecimal text
  | VPair cls a b => HPair cls a b
  | VList items =>
    HList items
      ((fix all (l : list pyval) : Forall P l :=
          match l with
          | [] => Forall_nil P
          | x :: l' => Forall_cons x (pyval_nested_ind x) (all l')
          end) items)
  end.
End NestedInduction.

(** ** The emitted events are bracketed (C8) *)

Lemma steps_ok (s : list string) : steps ok s s.
Proof. intros _ k. reflexivity. Qed.

Lemma steps_throw (e : exn) (p q : list string) : steps (throw e) p q.
Proof. intros H. discriminate H. Qed.

Ltac throws := exact (steps_throw _ _ _).

Lemma steps_open (name : string) (attr : attributes) (s : list string) :
  steps (_open_tag name attr) s (name :: s).
Proof. intros _ k. cbn. now rewrite !String.eqb_refl. Qed.

Lemma steps_close (name : string) (s : list string) :
  steps (_close_tag name) (name :: s) s.
Proof. intros _ k. cbn. now rewrite !String.eqb_refl. Qed.

Lemma steps_characters (content name : string) (s : list string) :
  steps (send (characters content)) (name :: s) (name :: s).
Proof. intros _ k. reflexivity. Qed.

Lemma steps_seq (a b : sax) (p q r : list string) :
  steps a p q -> steps b q r -> steps (a ;; b) p r.
Proof.
  intros Ha Hb H k. apply raised_seq in H as [H1 H2].
  rewrite sent_seq, <- app_assoc by assumption.
  now rewrite Ha, Hb.
Qed.

Lemma steps_write_element (name : string) (content : option string)
    (attr : attributes) (s : list string) :
  steps (_write_element name content attr) s s.
Proof.
  unfold _write_element.
  eapply steps_seq; [apply (steps_open name attr)|].
  eapply steps_seq; [|apply (steps_close name)].
  destruct content as [c|]; [destruct (c =? "")|];
    auto using steps_ok, steps_characters.
Qed.

Lemma steps_for_each (f : pyval -> sax) (l : list pyval) :
  Forall (fun x => forall s, steps (f x) s s) l ->
  forall s, steps (for_each f l) s s.
Proof.
  induction 1 as [|x l Hx _ IH]; intros s; cbn [for_each].
  - apply steps_ok.
  - eapply steps_seq; [apply Hx | apply IH].
Qed.

Lemma steps_bin_constant (typename : string) (v : pyval) (s : list string) :
  steps (_send_bin_constant typename v) s s.
Proof.
  unfold _send_bin_constant.
  destruct (py_tuple v) as [parts|]; [|throws].
  destruct (map_result mkstr parts) as [strs|e]; [|throws].
  eapply steps_seq; [apply steps_open|].
  destruct strs as [|p0 [|p1 strs]]; try throws.
  eapply steps_seq; [apply steps_characters|].
  eapply steps_seq; [apply steps_write_element|].
  eapply steps_seq; [apply steps_characters | apply steps_close].
Qed.

Lemma steps_send_function (rec : pyval -> sax) (fname : string) (rest : list pyval) :
  Forall (fun x => forall s, steps (rec x) s s) rest ->
  forall s, steps (_send_function rec fname rest) s s.
Proof.
  intros H s. unfold _send_function.
  eapply steps_seq; [apply steps_open|].
  eapply steps_seq; [apply steps_write_element|].
  eapply steps_seq; [apply steps_for_each, H | apply steps_close].
Qed.

Lemma steps_send_list (rec : pyval -> sax) (rest : list pyval)
    (list_type : string) (attr : attributes) :
  Forall (fun x => forall s, steps (rec x) s s) rest ->
  forall s, steps (_send_list rec rest list_type attr) s s.
Proof.
  intros H s. unfold _send_list.
  eapply steps_seq; [apply steps_open|].
  eapply steps_seq; [apply steps_for_each, H | apply steps_close].
Qed.

Lemma steps_send_case (rec : pyval -> sax) (rest : list pyval) :
  Forall (fun x => forall s, steps (rec x) s s) rest ->
  forall s, steps (_send_case rec rest) s s.
Proof.
  intros H s. unfold _send_case.
  eapply steps_seq; [apply steps_open|].
  eapply steps_seq; [apply steps_open|].
  destruct rest as [|c [|v more]]; try throws.
  inversion_clear H as [|? ? Hc H']. inversion_clear H' as [|? ? Hv Hmore].
  eapply steps_seq; [apply Hv|].
  eapply steps_seq; [apply Hc|].
  eapply steps_seq; [apply steps_close|].
  eapply steps_seq; [|apply steps_close].
  destruct more as [|o more]; [apply steps_ok|].
  inversion_clear Hmore as [|? ? Ho _].
  eapply steps_seq; [apply steps_open|].
  eapply steps_seq; [apply Ho | apply steps_close].
Qed.

Lemma steps_dispatch (rec : pyval -> sax) (operator : string) (rest : list pyval) :
  Forall (fun x => forall s, steps (rec x) s s) rest ->
  forall s, steps (dispatch rec operator rest) s s.
Proof.
  intros H s. unfold dispatch.
  destruct (map_operator operator); [now apply steps_send_function|].
  destruct (operator =? "name").
  { destruct rest as [|v ?]; [throws|].
    destruct (mkstr v); [|throws].
    destruct (map_constant a); apply steps_write_element. }
  destruct (prefix "const:" operator).
  { destruct rest as [|v ?]; [throws|].
    destruct (operator =? "const:bool"); [apply steps_write_element|].
    destruct ((operator =? "const:complex") || (operator =? "const:rational"));
      [apply steps_bin_constant|].
    destruct (operator =? "const:enotation"); [apply steps_bin_constant|].
    destruct (mkstr v); [apply steps_write_element | throws]. }
  destruct (operator =? "case"); [now apply steps_send_case|].
  destruct (slice_to 4 operator =? "list"); [now apply steps_send_list|].
  destruct (slice_to 9 operator =? "interval:"); [now apply steps_send_list|].
  now apply steps_send_function.
Qed.

Lemma steps_character (elem : pyval) :
  forall s, steps (character_to_sax elem) s s.
Proof.
  intros s. destruct elem as [[|c [|? ?]]| | | | |]; try throws.
  apply steps_dispatch. constructor.
Qed.

Lemma steps_string (tree : string) : forall s, steps (string_to_sax tree) s s.
Proof.
  intros s. destruct tree as [|c tree]; [throws|].
  apply steps_dispatch. apply Forall_forall. intros x _. apply steps_character.
Qed.

Lemma steps_recursive_tree_to_sax (tree : pyval) :
  forall s, steps (_recursive_tree_to_sax tree) s s.
Proof.
  induction tree as [str| | | | |items IH] using pyval_nested_ind; intros st;
    try throws.
  - apply steps_string.
  - destruct items as [|[op| | | | |] rest]; try throws.
    cbn [_recursive_tree_to_sax]. apply steps_dispatch.
    now inversion IH.
Qed.

Lemma operator_symbol_not_tag (operator mapped : string) :
  map_operator operator = Some mapped -> node_tag operator = false.
Proof.
  unfold map_operator. cbn [dict_get _FUNCTION_MAP].
  repeat match goal with
         | |- context [String.eqb ?k operator] =>
           destruct (String.eqb_spec k operator) as [<-|_]; [reflexivity|]
         end.
  discriminate.
Qed.

Lemma raised_write_element (name : string) (content : option string)
    (attr : attributes) :
  raised (_write_element name content attr) = None.
Proof. destruct content as [c|]; [cbn; destruct (c =? "")|]; reflexivity. Qed.

Lemma raised_for_each (f : pyval -> sax) (l : list pyval) :
  Forall (fun x => raised (f x) = None) l -> raised (for_each f l) = None.
Proof.
  induction 1 as [|x l Hx _ IH]; cbn [for_each]; [reflexivity|].
  now apply raised_seq.
Qed.

Lemma raised_send_function (rec : pyval -> sax) (fname : string) (rest : list pyval) :
  Forall (fun x => raised (rec x) = None) rest ->
  raised (_send_function rec fname rest) = None.
Proof.
  intros H. unfold _send_function.
  rewrite !raised_seq. auto using raised_write_element, raised_for_each.
Qed.

Lemma raised_send_list (rec : pyval -> sax) (rest : list pyval)
    (list_type : string) (attr : attributes) :
  Forall (fun x => raised (rec x) = None) rest ->
  raised (_send_list rec rest list_type attr) = None.
Proof.
  intros H. unfold _send_list.
  rewrite !raised_seq. auto using raised_for_each.
Qed.

Lemma well_formed_forall (P : pyval -> Prop) (l : list pyval) :
  Forall (fun x => well_formed x = true -> P x) l ->
  forallb well_formed l = true -> Forall P l.
Proof.
  induction 1 as [|x l Hx _ IH]; cbn [forallb]; [constructor|].
  rewrite andb_true_iff. intros [H1 H2]. constructor; auto.
Qed.

Lemma well_formed_completes (tree : pyval) :
  well_formed tree = true -> raised (_recursive_tree_to_sax tree) = None.
Proof.
  induction tree as [| | | | |items IH] using pyval_nested_ind;
    try discriminate.
  destruct items as [|[op| | | | |] rest]; try discriminate.
  cbn [well_formed _recursive_tree_to_sax]. unfold dispatch.
  inversion_clear IH as [|? ? _ IH'].
  destruct (map_operator op) as [mapped|] eqn:Hop.
  { apply operator_symbol_not_tag in Hop. unfold node_tag in Hop.
    rewrite !orb_false_iff in Hop. destruct Hop as [[[[-> ->] ->] _] _].
    intros H. apply raised_send_function. now apply well_formed_forall. }
  destruct (op =? "name").
  { destruct rest as [|[id| | | | |] [|? ?]]; try discriminate. intros _.
    cbn [mkstr]. destruct (map_constant id); apply raised_write_element. }
  destruct (prefix "const:" op).
  { destruct rest as [|v [|? ?]]; try discriminate. unfold constant_fits.
    destruct (op =? "const:bool"); [intros _; apply raised_write_element|].
    destruct (op =? "const:complex"), (op =? "const:rational"),
      (op =? "const:enotation"); cbn [orb];
      destruct v as [?|[|]|?|?|? ? ?|?]; try discriminate; intros _;
      try reflexivity; apply raised_write_element. }
  destruct (op =? "case").
  { destruct rest as [|c [|v [|o [|? ?]]]]; try discriminate;
      inversion_clear IH' as [|? ? Hc IH'']; inversion_clear IH'' as [|? ? Hv IH3];
      rewrite ?andb_true_iff; unfold _send_case.
    - intros [H1 H2]. rewrite !raised_seq. auto 10.
    - inversion_clear IH3 as [|? ? Ho _].
      intros [[H1 H2] H3]. rewrite !raised_seq. auto 10. }
  intros H. apply (well_formed_forall _ _ IH') in H.
  destruct (slice_to 4 op =? "list"); [now apply raised_send_list|].
  destruct (slice_to 9 op =? "interval:"); [now apply raised_send_list|].
  now apply raised_send_function.
Qed.

(** C8: for every AST, [tree_to_sax] hands the handler the document start,
    the prefix mapping of the MathML namespace, a body of element events in
    which every element opened is closed by the same name in last-opened,
    first-closed order and every name lies in that namespace, then the end
    of the prefix mapping and the document end; the walk ends normally. *)
Theorem tree_to_sax_bracketed (tree : pyval) :
  well_formed tree = true ->
  exists body,
    tree_to_sax tree
    = Sax (startDocument :: startPrefixMapping None MATHML_NAMESPACE_URI
             :: body ++ [endPrefixMapping None; endDocument]) None
    /\ well_nested [] body = true.
Proof.
  intros H. apply well_formed_completes in H.
  exists (sent (_recursive_tree_to_sax tree)). split.
  - unfold tree_to_sax, seq; cbn. rewrite H. reflexivity.
  - pose proof (steps_recursive_tree_to_sax tree [] H []) as Hs.
    now rewrite app_nil_r in Hs.
Qed.

Lemma tree_to_sax_bracketed_witness :
  well_formed (Apply "+" [Name "x"; CaseElse (Name "c") (Const "integer" (VInt 1))
                                      (Const "complex" (VPair Complex "1" "0.3"))]) = true
  /\ exists body,
       tree_to_sax (Apply "+" [Name "x"; CaseElse (Name "c") (Const "integer" (VInt 1))
                                           (Const "complex" (VPair Complex "1" "0.3"))])
       = Sax (startDocument :: startPrefixMapping None MATHML_NAMESPACE_URI
                :: body ++ [endPrefixMapping None; endDocument]) None
       /\ well_nested [] body = true.
Proof.
  split; [reflexivity | apply tree_to_sax_bracketed; reflexivity].
Defined.

(** ** Inverted dictionaries *)

Lemma dict_get_set (d : dict) (k v k' : string) :
  dict_get (dict_set d k v) k' = if k =? k' then Some v else dict_get d k'.
Proof.
  induction d as [|[k0 v0] d IH]; cbn [dict_set dict_get]; [reflexivity|].
  destruct (String.eqb_spec k0 k) as [->|Hk0]; cbn [dict_get].
  - now destruct (k =? k').
  - destruct (String.eqb_spec k0 k') as [->|Hk']; [|exact IH].
    destruct (String.eqb_spec k k') as [->|_]; [now elim Hk0 | reflexivity].
Qed.

Lemma dict_of_pairs_sound (pairs : list (string * string)) (d : dict) (k v : string) :
  dict_get (fold_left (fun d kv => dict_set d (fst kv) (snd kv)) pairs d) k = Some v ->
  In (k, v) pairs \/ dict_get d k = Some v.
Proof.
  revert d. induction pairs as [|[k0 v0] pairs IH]; intros d; cbn [fold_left];
    [now right|].
  intros H. apply IH in H as [H|H]; [left; now right|].
  cbn [fst snd] in H. rewrite dict_get_set in H.
  destruct (String.eqb_spec k0 k) as [->|_]; [|now right].
  injection H as ->. left; now left.
Qed.

Lemma dict_of_pairs_complete (pairs : list (string * string)) (d : dict) (k : string) :
  (exists v, In (k, v) pairs) \/ dict_get d k <> None ->
  dict_get (fold_left (fun d kv => dict_set d (fst kv) (snd kv)) pairs d) k <> None.
Proof.
  revert d. induction pairs as [|[k0 v0] pairs IH]; intros d; cbn [fold_left].
  - intros [[v []]|H]; exact H.
  - intros H. apply IH. cbn [fst snd]. rewrite dict_get_set.
    destruct (String.eqb_spec k0 k) as [->|Hk]; [right; discriminate|].
    destruct H as [[v [H|H]]|H]; [congruence | left; now exists v | now right].
Qed.

Section Inverted.
Variable iteritems : dict -> list (string * string).
Hypothesis order : iteration_order iteritems.

Lemma inverted_sound (d : dict) (v n : string) :
  dict_get (inverted iteritems d) v = Some n -> In (n, v) d.
Proof.
  intros H. apply dict_of_pairs_sound in H as [H|H]; [|discriminate H].
  apply in_map_iff in H as [[n' v'] [E H]]. injection E as <- <-.
  now apply (Permutation_in _ (order d)).
Qed.

Lemma inverted_complete (d : dict) (v n : string) :
  In (n, v) d -> dict_get (inverted iteritems d) v <> None.
Proof.
  intros H. apply dict_of_pairs_complete. left. exists n.
  apply in_map_iff. exists (n, v). split; [reflexivity|].
  now apply (Permutation_in _ (Permutation_sym (order d))).
Qed.

(** The constant table is one to one: its inversion does not depend on
    the iteration order. *)
Lemma dom_map_constant_spec (mtype : string) :
  dom_map_constant iteritems mtype
  = dict_get [("true", "true"); ("false", "false"); ("pi", "pi");
              ("imaginaryi", "i"); ("exponentiale", "e")] mtype.
Proof.
  unfold dom_map_constant.
  destruct (dict_get (inverted iteritems _ELEMENT_CONSTANT_MAP) mtype) as [n|] eqn:E.
  - apply inverted_sound in E. cbn in E.
    repeat (destruct E as [E|E]; [injection E as <- <-; reflexivity|]).
    destruct E.
  - cbn [dict_get].
    repeat match goal with
           | |- context [String.eqb ?k mtype] =>
             destruct (String.eqb_spec k mtype) as [<-|_];
             [exfalso; revert E; eapply inverted_complete; cbn; tauto|]
           end.
    reflexivity.
Qed.

(** So is the operator table, but for [neq]. *)
Lemma dom_map_operator_spec (name default : string) :
  name <> "neq" ->
  dom_map_operator iteritems name default
  = match dict_get [("plus", "+"); ("minus", "-"); ("times", "*");
                    ("divide", "/"); ("power", "^"); ("factorof", "|");
                    ("eq", "="); ("gt", ">"); ("geq", ">="); ("leq", "<=");
                    ("lt", "<")] name with
    | Some symbol => symbol
    | None => default
    end.
Proof.
  intros Hneq. unfold dom_map_operator.
  destruct (dict_get (inverted iteritems _FUNCTION_MAP) name) as [n|] eqn:E.
  - apply inverted_sound in E. cbn in E.
    repeat (destruct E as [E|E];
            [injection E as <- <-; (reflexivity || now elim Hneq)|]).
    destruct E.
  - cbn [dict_get].
    repeat match goal with
           | |- context [String.eqb ?k name] =>
             destruct (String.eqb_spec k name) as [<-|_];
             [exfalso; revert E; eapply inverted_complete; cbn; tauto|]
           end.
    reflexivity.
Qed.

Lemma neq_symbol_cases :
  neq_symbol iteritems = "<>" \/ neq_symbol iteritems = "!=".
Proof.
  unfold neq_symbol, dom_map_operator.
  destruct (dict_get (inverted iteritems _FUNCTION_MAP) "neq") as [n|] eqn:E.
  - apply inverted_sound in E. cbn in E.
    repeat (destruct E as [E|E];
            [injection E as <-; (discriminate || tauto)|]).
    destruct E.
  - exfalso. revert E. apply (inverted_complete _ _ "<>"). cbn. tauto.
Qed.

Lemma dom_map_operator_neq (default : string) :
  dom_map_operator iteritems "neq" default = neq_symbol iteritems.
Proof.
  unfold neq_symbol, dom_map_operator.
  destruct (dict_get (inverted iteritems _FUNCTION_MAP) "neq") eqn:E;
    [reflexivity|].
  exfalso. revert E. apply (inverted_complete _ _ "<>"). cbn. tauto.
Qed.
End Inverted.

(** ** The linked lists of [_recursive_piecewise] *)

Lemma piece_to_case_clause (rec : node -> result pyval) (children : list node) :
  _piece_to_case rec children
  = clause <- piece_clause rec children ;;; Ok (case_items clause).
Proof.
  destruct children as [|v [|c [|? ?]]]; try reflexivity.
  cbn. destruct (rec v); cbn; [destruct (rec c)|]; reflexivity.
Qed.

Lemma chain_length (clauses : list (pyval * pyval)) :
  forall a tail, length (chain a clauses tail) = length clauses.
Proof.
  induction clauses as [|c0 [|c1 cs] IH]; intros a tail; try reflexivity.
  change (S (length (chain (S a) (c1 :: cs) tail)) = S (length (c1 :: cs))).
  now rewrite IH.
Qed.

Lemma chain_snoc (new : pyval * pyval) (cs : list (pyval * pyval)) :
  forall a c0,
    store_append (chain a (c0 :: cs) [] ++ [map Item (case_items new)])
                 (length cs) (Ref (a + S (length cs)))
    = chain a ((c0 :: cs) ++ [new]) [].
Proof.
  induction cs as [|c1 cs IH]; intros a c0.
  - cbn. now rewrite Nat.add_1_r.
  - change (chain a (c0 :: c1 :: cs) [])
      with ((map Item (case_items c0) ++ [Ref (S a)]) :: chain (S a) (c1 :: cs) []).
    change (chain a ((c0 :: c1 :: cs) ++ [new]) [])
      with ((map Item (case_items c0) ++ [Ref (S a)])
              :: chain (S a) ((c1 :: cs) ++ [new]) []).
    cbn [app length store_append]. f_equal.
    etransitivity; [|apply (IH (S a) c1)].
    do 2 f_equal. lia.
Qed.

Lemma chain_store_snoc (new : pyval * pyval) (clauses : list (pyval * pyval)) :
  store_append (chain_store clauses [] ++ [map Item (case_items new)])
               (length clauses) (Ref (S (length clauses)))
  = chain_store (clauses ++ [new]) [].
Proof.
  destruct clauses as [|c0 cs]; [reflexivity|].
  change (chain_store (c0 :: cs) []) with ([Ref 1] :: chain 1 (c0 :: cs) []).
  change (chain_store ((c0 :: cs) ++ [new]) [])
    with ([Ref 1] :: chain 1 ((c0 :: cs) ++ [new]) []).
  cbn [app length store_append]. f_equal. apply (chain_snoc new cs 1 c0).
Qed.

Lemma chain_store_length (clauses : list (pyval * pyval)) (tail : list cell) :
  length (chain_store clauses tail) = S (length clauses).
Proof.
  destruct clauses; [reflexivity|].
  unfold chain_store. cbn [length]. now rewrite chain_length.
Qed.

Lemma chain_append_last (c : cell) (cs : list (pyval * pyval)) :
  forall a c0,
    store_append (chain a (c0 :: cs) []) (length cs) c = chain a (c0 :: cs) [c].
Proof.
  induction cs as [|c1 cs IH]; intros a c0; [reflexivity|].
  change (chain a (c0 :: c1 :: cs) [])
    with ((map Item (case_items c0) ++ [Ref (S a)]) :: chain (S a) (c1 :: cs) []).
  cbn [length store_append]. now rewrite IH.
Qed.

Lemma chain_last_nonempty (cs : list (pyval * pyval)) :
  forall a c0 tail,
    exists x rest, nth (length cs) (chain a (c0 :: cs) tail) [] = x :: rest.
Proof.
  induction cs as [|c1 cs IH]; intros a c0 tail.
  - cbn. eauto.
  - change (chain a (c0 :: c1 :: cs) tail)
      with ((map Item (case_items c0) ++ [Ref (S a)]) :: chain (S a) (c1 :: cs) tail).
    cbn [length nth]. apply IH.
Qed.

Lemma store_read_item (fuel : nat) (h : store) (v : pyval) :
  store_read fuel h (Item v) = Some v.
Proof. now destruct fuel. Qed.

Lemma chain_read (default : option pyval) (more : list (pyval * pyval)) :
  forall clause a pre fuel,
    length pre = a ->
    length more < fuel ->
    store_read fuel
      (pre ++ chain a (clause :: more)
                    match default with Some d => [Item d] | None => [] end)
      (Ref a)
    = Some (nested_case clause more default).
Proof.
  induction more as [|next more IH]; intros clause a pre fuel Hpre Hfuel;
    (destruct fuel as [|fuel]; [lia|]); cbn [store_read]; unfold store_get;
    rewrite app_nth2, Hpre, Nat.sub_diag by lia.
  - destruct default; cbn [chain nth case_items map app all_some];
      now rewrite !store_read_item.
  - change (chain a (clause :: next :: more) ?t)
      with ((map Item (case_items clause) ++ [Ref (S a)])
              :: chain (S a) (next :: more) t).
    cbn [nth case_items map app all_some].
    rewrite !store_read_item.
    set (first := Item (VStr "case") :: _).
    change (pre ++ first :: ?t) with (pre ++ [first] ++ t).
    rewrite app_assoc, IH; [reflexivity | | cbn [length] in Hfuel; lia].
    rewrite length_app. cbn. lia.
Qed.

Lemma piecewise_loop_collect (rec : node -> result pyval) (children : list node) :
  forall clauses o,
    piecewise_loop rec children (chain_store clauses [], length clauses, o)
    = acc <- collect rec children (clauses, o) ;;;
      Ok (chain_store (fst acc) [], length (fst acc), snd acc).
Proof.
  induction children as [|[name attrs ch|data] children IH]; intros clauses o;
    try reflexivity.
  cbn [piecewise_loop collect fst snd].
  destruct (name =? "piece").
  - rewrite piece_to_case_clause.
    destruct (piece_clause rec ch) as [clause|e]; [|reflexivity].
    cbn [bind]. unfold store_new.
    rewrite chain_store_length, chain_store_snoc.
    replace (S (length clauses)) with (length (clauses ++ [clause]))
      by (rewrite length_app; cbn; lia).
    apply IH.
  - destruct (name =? "otherwise"); [|reflexivity].
    destruct ch as [|firstChild ?]; [reflexivity|].
    destruct (rec firstChild); [apply IH | reflexivity].
Qed.

(** The loop over the store computes the nested cases of the clauses it
    has read. *)
Lemma recursive_piecewise_spec (rec : node -> result pyval) (children : list node) :
  _recursive_piecewise rec children
  = acc <- collect rec children ([], None) ;;; finish (fst acc) (snd acc).
Proof.
  unfold _recursive_piecewise, store_new. cbn [length app].
  change (piecewise_loop rec children ([[]], 0, None))
    with (piecewise_loop rec children
            (chain_store [] [], length (@nil (pyval * pyval)), None)).
  rewrite (piecewise_loop_collect rec children [] None).
  destruct (collect rec children ([], None)) as [[clauses o]|e]; [|reflexivity].
  cbn [bind fst snd]. unfold finish.
  assert (Hread : forall default,
             match store_get (chain_store clauses
                      match default with Some d => [Item d] | None => [] end) 0 with
             | [] => Raise IndexError
             | c :: _ =>
               match store_read (length (chain_store clauses
                        match default with Some d => [Item d] | None => [] end))
                       (chain_store clauses
                        match default with Some d => [Item d] | None => [] end) c with
               | Some v => Ok v
               | None => Raise OutsideModel
               end
             end
             = match clauses with
               | [] => Raise IndexError
               | clause :: more => Ok (nested_case clause more default)
               end).
  { intros default. destruct clauses as [|clause more]; [reflexivity|].
    rewrite chain_store_length. unfold chain_store. cbn [store_get nth].
    change ([Ref 1] :: ?t) with ([[Ref 1]] ++ t).
    rewrite chain_read; [reflexivity | reflexivity | cbn [length]; lia]. }
  destruct o as [d|]; [destruct (truthy d)|].
  - destruct clauses as [|clause more]; [reflexivity|].
    unfold chain_store at 1, store_get at 1. cbn [length nth].
    destruct (chain_last_nonempty more 1 clause []) as [x [rest ->]].
    unfold chain_store at 1 2 3. cbn [length store_append].
    rewrite chain_append_last. apply (Hread (Some d)).
  - apply (Hread None).
  - apply (Hread None).
Qed.

(** ** Extraction, element by element *)

Lemma map_result_Forall2 {A B} (f : A -> result B) (l : list A) (ys : list B) :
  Forall2 (fun x y => f x = Ok y) l ys <-> map_result f l = Ok ys.
Proof.
  split.
  - induction 1 as [|x y l ys Hx _ IH]; cbn [map_result]; [reflexivity|].
    now rewrite Hx, IH.
  - revert ys. induction l as [|x l IH]; intros ys; cbn [map_result].
    + intros [= <-]. constructor.
    + destruct (f x) as [y|] eqn:Hx; [|discriminate]. cbn [bind].
      destruct (map_result f l) as [ys'|]; [|discriminate].
      intros [= <-]. constructor; auto.
Qed.

Lemma collect_app (rec : node -> result pyval) (l1 l2 : list node) :
  forall acc,
    collect rec (l1 ++ l2) acc = acc' <- collect rec l1 acc ;;; collect rec l2 acc'.
Proof.
  induction l1 as [|[name attrs ch|data] l1 IH]; intros acc; try reflexivity.
  cbn [app collect].
  destruct (name =? "piece").
  - destruct (piece_clause rec ch); [apply IH | reflexivity].
  - destruct (name =? "otherwise"); [|reflexivity].
    destruct ch as [|firstChild ?]; [reflexivity|].
    destruct (rec firstChild); [apply IH | reflexivity].
Qed.

Lemma collect_pieces (rec : node -> result pyval) (elements : list node)
    (clauses : list (pyval * pyval)) :
  Forall2 (extracts_piece rec) elements clauses ->
  forall acc, collect rec elements acc = Ok (fst acc ++ clauses, snd acc).
Proof.
  induction 1 as [|e cl elements clauses He _ IH]; intros acc.
  - cbn. rewrite app_nil_r. now destruct acc.
  - destruct He as [attrs v c value condition Hv Hc].
    cbn [collect String.eqb Ascii.eqb Bool.eqb piece_clause].
    rewrite Hv, Hc. cbn [bind]. rewrite IH. cbn [fst snd].
    now rewrite <- app_assoc.
Qed.

Lemma collect_otherwise (rec : node -> result pyval) (tail : list node)
    (default : option pyval) (clauses : list (pyval * pyval)) :
  extracts_otherwise rec tail default ->
  collect rec tail (clauses, None) = Ok (clauses, default).
Proof.
  intros [|attrs firstChild others d H]; [reflexivity|].
  cbn. now rewrite H.
Qed.

Section Extraction.
Variable iteritems : dict -> list (string * string).
Hypothesis order : iteration_order iteritems.

Let rec := _recursive_dom_to_tree iteritems.

Lemma extract_element (mtype : string) (attrs : attributes) (children : list node) :
  dom_to_tree iteritems (Element mtype attrs children)
  = element_to_tree iteritems rec mtype attrs children.
Proof. reflexivity. Qed.

Lemma extract_piecewise (attrs : attributes) (children : list node) :
  dom_to_tree iteritems (Element "piecewise" attrs children)
  = acc <- collect rec children ([], None) ;;; finish (fst acc) (snd acc).
Proof.
  rewrite extract_element. unfold element_to_tree.
  rewrite (dom_map_constant_spec _ order). cbn -[_recursive_piecewise].
  apply recursive_piecewise_spec.
Qed.

(** What extraction returns is a non-empty list. *)
Lemma extracted_truthy (element : node) (tree : pyval) :
  rec element = Ok tree -> truthy tree = true.
Proof.
  destruct element as [mtype attrs ch|data]; [|discriminate].
  change (rec (Element mtype attrs ch))
    with (element_to_tree iteritems rec mtype attrs ch).
  unfold element_to_tree.
  destruct (dom_map_constant iteritems mtype) as [constant|].
  { destruct (_ || _); now intros [= <-]. }
  destruct (mtype =? "ci").
  { destruct ch as [|[? ? ?|d] ?]; try discriminate. now intros [= <-]. }
  destruct (mtype =? "cn").
  { destruct (valuetype attrs); [|discriminate]. cbn [bind].
    destruct (value _ ch); [|discriminate]. now intros [= <-]. }
  destruct (mtype =? "apply").
  { destruct ch as [|[name a [|? ?]|d] rest]; try discriminate.
    destruct (map_result rec rest); [|discriminate]. now intros [= <-]. }
  destruct (mtype =? "piecewise").
  { rewrite recursive_piecewise_spec.
    destruct (collect rec ch ([], None)) as [[clauses o]|]; [|discriminate].
    cbn [bind fst snd]. unfold finish.
    destruct clauses as [|clause [|next more]]; destruct o as [d|];
      try destruct (truthy d) eqn:Hd; try discriminate; now intros [= <-]. }
  destruct (mtype =? "list").
  { destruct (map_result rec ch); [|discriminate]. now intros [= <-]. }
  destruct (mtype =? "interval"); [|discriminate].
  destruct (map_result rec ch); [|discriminate]. cbn [bind].
  destruct (closure attrs); [|discriminate]. now intros [= <-].
Qed.

Lemma extract_nested (attrs : attributes) (elements tail : list node)
    (clause : pyval * pyval) (more : list (pyval * pyval)) (default : option pyval) :
  Forall2 (extracts_piece rec) elements (clause :: more) ->
  extracts_otherwise rec tail default ->
  dom_to_tree iteritems (Element "piecewise" attrs (elements ++ tail))
  = Ok (nested_case clause more default).
Proof.
  intros Hp Ho. rewrite extract_piecewise, collect_app.
  rewrite (collect_pieces _ _ _ Hp). cbn [bind fst snd app].
  rewrite (collect_otherwise _ _ _ _ Ho). cbn [bind fst snd]. unfold finish.
  destruct Ho as [|? ? ? d Hd]; [reflexivity|].
  now rewrite (extracted_truthy _ _ Hd).
Qed.

Lemma extract_interval (attrs : attributes) (children : list node) :
  dom_to_tree iteritems (Element "interval" attrs children)
  = list_items <- map_result rec children ;;;
    c <- closure attrs ;;;
    Ok (Interval c list_items).
Proof.
  rewrite extract_element. unfold element_to_tree.
  now rewrite (dom_map_constant_spec _ order).
Qed.

Lemma extract_apply (attrs oattrs : attributes) (name : string)
    (grandchildren rest : list node) :
  dom_to_tree iteritems
    (Element "apply" attrs (Element name oattrs grandchildren :: rest))
  = match grandchildren with
    | _ :: _ => Raise (NotImplementedError FunctionComposition)
    | [] =>
      operands <- map_result rec rest ;;;
      Ok (Apply (dom_map_operator iteritems name name) operands)
    end.
Proof.
  rewrite extract_element. unfold element_to_tree.
  rewrite (dom_map_constant_spec _ order).
  now destruct grandchildren.
Qed.
End Extraction.

(** The order of the table as it is written is one iteration order. *)
Lemma written_order : iteration_order (fun d => d).
Proof. intros d. apply Permutation_refl. Qed.

(** ** Wrong child counts (C3) *)

(** C3, as the specification states it, fails for intervals: an interval
    element with three children is extracted, to an interval of three
    items. *)
Lemma interval_of_three_is_extracted :
  length [Element "ci" [] [Text "a"]; Element "ci" [] [Text "b"];
          Element "ci" [] [Text "c"]] <> 2
  /\ dom_to_tree (fun d => d)
       (Element "interval" [("closure", "closed")]
          [Element "ci" [] [Text "a"]; Element "ci" [] [Text "b"];
           Element "ci" [] [Text "c"]])
     = Ok (Interval "closed" [Name "a"; Name "b"; Name "c"]).
Proof. split; [discriminate | reflexivity]. Qed.

(** C3, amended: a piecewise element with a piece child whose number of
    children differs from 2 is not extracted; the extraction raises
    NotImplementedError for that piece unless a child before it raised
    already.  An interval element is extracted with the children it has,
    whatever their number. *)
Theorem piece_count_is_checked (iteritems : dict -> list (string * string))
    (attrs pattrs iattrs : attributes)
    (before pchildren after ichildren : list node) :
  iteration_order iteritems ->
  length pchildren <> 2 ->
  dom_to_tree iteritems
    (Element "piecewise" attrs (before ++ Element "piece" pattrs pchildren :: after))
  = (acc <- collect (_recursive_dom_to_tree iteritems) before ([], None) ;;;
     Raise (NotImplementedError (PieceChildren (length pchildren))))
  /\ dom_to_tree iteritems (Element "interval" iattrs ichildren)
     = (list_items <- map_result (_recursive_dom_to_tree iteritems) ichildren ;;;
        c <- closure iattrs ;;;
        Ok (Interval c list_items)).
Proof.
  intros order Hlen. split.
  - rewrite extract_piecewise, collect_app by assumption.
    destruct (collect (_recursive_dom_to_tree iteritems) before ([], None))
      as [acc|e]; [|reflexivity].
    cbn [bind collect String.eqb Ascii.eqb Bool.eqb].
    destruct pchildren as [|a [|b [|c ?]]]; try reflexivity. now elim Hlen.
  - rewrite extract_element. unfold element_to_tree.
    now rewrite (dom_map_constant_spec _ order).
Qed.

Lemma piece_count_is_checked_witness :
  iteration_order (fun d => d)
  /\ length [Element "ci" [] [Text "v"]; Element "ci" [] [Text "c"];
             Element "ci" [] [Text "x"]] <> 2
  /\ dom_to_tree (fun d => d)
       (Element "piecewise" []
          ([] ++ Element "piece" []
                   [Element "ci" [] [Text "v"]; Element "ci" [] [Text "c"];
                    Element "ci" [] [Text "x"]] :: []))
     = Raise (NotImplementedError (PieceChildren 3))
  /\ dom_to_tree (fun d => d)
       (Element "interval" [("closure", "open")] [Element "ci" [] [Text "a"]])
     = Ok (Interval "open" [Name "a"]).
Proof.
  split; [exact written_order|]. split; [discriminate|].
  apply (piece_count_is_checked (fun d => d) [] [] [("closure", "open")] []
           [Element "ci" [] [Text "v"]; Element "ci" [] [Text "c"];
            Element "ci" [] [Text "x"]] [] [Element "ci" [] [Text "a"]]);
    [exact written_order | discriminate].
Defined.

(** ** The operator position of an apply element (C4) *)

(** C4: an apply element whose first child has children of its own is
    rejected with NotImplementedError (function composition), whatever the
    children after it are: they are not looked at.  When the first child is
    a leaf, the children after it become the operands, in order, of the node
    its name selects. *)
Theorem apply_operator_is_a_leaf (iteritems : dict -> list (string * string))
    (attrs oattrs : attributes) (name : string) (grandchild : node)
    (grandchildren rest : list node) :
  iteration_order iteritems ->
  dom_to_tree iteritems
    (Element "apply" attrs (Element name oattrs (grandchild :: grandchildren) :: rest))
  = Raise (NotImplementedError FunctionComposition)
  /\ (forall operands,
        Forall2 (fun child operand => _recursive_dom_to_tree iteritems child = Ok operand)
                rest operands ->
        dom_to_tree iteritems (Element "apply" attrs (Element name oattrs [] :: rest))
        = Ok (Apply (dom_map_operator iteritems name name) operands)).
Proof.
  intros order. rewrite !extract_apply by assumption. split; [reflexivity|].
  intros operands H. apply map_result_Forall2 in H. now rewrite H.
Qed.

Lemma apply_operator_is_a_leaf_witness :
  iteration_order (fun d => d)
  /\ dom_to_tree (fun d => d)
       (Element "apply" []
          (Element "minus" [] [Element "ci" [] [Text "x"]]
             :: [Element "ci" [] [Text "a"]; Element "nonsense" [] []]))
     = Raise (NotImplementedError FunctionComposition)
  /\ dom_to_tree (fun d => d)
       (Element "apply" []
          (Element "minus" [] [Element "ci" [] [Text "x"]]
             :: [Element "ci" [] [Text "a"]; Element "pi" [] []]))
     = Raise (NotImplementedError FunctionComposition)
  /\ Forall2 (fun child operand => _recursive_dom_to_tree (fun d => d) child = Ok operand)
       [Element "ci" [] [Text "a"]; Element "pi" [] []] [Name "a"; Name "pi"]
  /\ dom_to_tree (fun d => d)
       (Element "apply" []
          (Element "minus" [] [] :: [Element "ci" [] [Text "a"]; Element "pi" [] []]))
     = Ok (Apply "-" [Name "a"; Name "pi"]).
Proof.
  split; [exact written_order|].
  split; [exact (proj1 (apply_operator_is_a_leaf (fun d => d) [] [] "minus"
                          (Element "ci" [] [Text "x"]) []
                          [Element "ci" [] [Text "a"]; Element "nonsense" [] []]
                          written_order))|].
  assert (H : Forall2 (fun child operand =>
                         _recursive_dom_to_tree (fun d => d) child = Ok operand)
                [Element "ci" [] [Text "a"]; Element "pi" [] []]
                [Name "a"; Name "pi"])
    by (repeat constructor).
  destruct (apply_operator_is_a_leaf (fun d => d) [] [] "minus"
              (Element "ci" [] [Text "x"]) []
              [Element "ci" [] [Text "a"]; Element "pi" [] []] written_order)
    as [Hcomposed Hleaf].
  split; [exact Hcomposed|]. split; [exact H|].
  exact (Hleaf _ H).
Defined.

(** ** Case nodes and piecewise elements (C5, C6) *)

(** C5: a Case node is emitted as a piecewise element whose piece holds
    the events of the value first and those of the condition second, and
    then, when the node has a default, an otherwise element around the
    events of the default; extraction reads the two children of a piece as
    value and condition, in that order. *)
Theorem case_value_then_condition (iteritems : dict -> list (string * string))
    (condition value otherwise : pyval) (attrs pattrs : attributes) (v c : node) :
  iteration_order iteritems ->
  _recursive_tree_to_sax (Case condition value)
  = (_open_tag "piecewise" NO_ATTR ;;
     _open_tag "piece" NO_ATTR ;;
     _recursive_tree_to_sax value ;;
     _recursive_tree_to_sax condition ;;
     _close_tag "piece" ;;
     _close_tag "piecewise")
  /\ _recursive_tree_to_sax (CaseElse condition value otherwise)
     = (_open_tag "piecewise" NO_ATTR ;;
        _open_tag "piece" NO_ATTR ;;
        _recursive_tree_to_sax value ;;
        _recursive_tree_to_sax condition ;;
        _close_tag "piece" ;;
        _open_tag "otherwise" NO_ATTR ;;
        _recursive_tree_to_sax otherwise ;;
        _close_tag "otherwise" ;;
        _close_tag "piecewise")
  /\ dom_to_tree iteritems (Element "piecewise" attrs [Element "piece" pattrs [v; c]])
     = (tv <- _recursive_dom_to_tree iteritems v ;;;
        tc <- _recursive_dom_to_tree iteritems c ;;;
        Ok (Case tc tv)).
Proof.
  intros order. split; [|split].
  - cbn [Case _recursive_tree_to_sax].
    change (dispatch ?r "case" ?x) with (_send_case r x).
    unfold _send_case. now rewrite seq_ok_l.
  - cbn [CaseElse _recursive_tree_to_sax].
    change (dispatch ?r "case" ?x) with (_send_case r x).
    unfold _send_case. now rewrite !seq_assoc.
  - rewrite extract_piecewise by assumption.
    cbn [collect String.eqb Ascii.eqb Bool.eqb piece_clause].
    destruct (_recursive_dom_to_tree iteritems v); [|reflexivity].
    destruct (_recursive_dom_to_tree iteritems c); reflexivity.
Qed.

Lemma case_value_then_condition_witness :
  iteration_order (fun d => d)
  /\ dom_to_tree (fun d => d)
       (Element "piecewise" []
          [Element "piece" [] [Element "cn" [("type", "integer")] [Text "1"];
                               Element "ci" [] [Text "c"]]])
     = Ok (Case (Name "c") (Const "integer" (VInt 1))).
Proof.
  split; [exact written_order|].
  exact (proj2 (proj2 (case_value_then_condition (fun d => d)
                         (Name "c") (Const "integer" (VInt 1)) (Name "o") [] []
                         (Element "cn" [("type", "integer")] [Text "1"])
                         (Element "ci" [] [Text "c"]) written_order))).
Defined.

(** C6: a piecewise element whose children are pieces, two or more (one
    will do), and then at most one otherwise element is extracted to nested
    Case nodes: the slot after the value of each clause holds the Case of
    the next piece, and the default ends the innermost one:
    [Case(cond1, val1, Case(cond2, val2, ..., default))]. *)
Theorem piecewise_nests (iteritems : dict -> list (string * string))
    (attrs : attributes) (elements tail : list node)
    (clause : pyval * pyval) (more : list (pyval * pyval)) (default : option pyval) :
  iteration_order iteritems ->
  Forall2 (extracts_piece (_recursive_dom_to_tree iteritems)) elements (clause :: more) ->
  extracts_otherwise (_recursive_dom_to_tree iteritems) tail default ->
  dom_to_tree iteritems (Element "piecewise" attrs (elements ++ tail))
  = Ok (nested_case clause more default).
Proof.
  intros order Hpieces Hotherwise.
  rewrite extract_piecewise, collect_app by assumption.
  rewrite (collect_pieces _ _ _ Hpieces). cbn [bind fst snd app].
  rewrite (collect_otherwise _ _ _ _ Hotherwise). cbn [bind fst snd].
  unfold finish.
  destruct Hotherwise as [|? ? ? d Hd]; [reflexivity|].
  now rewrite (extracted_truthy _ _ _ Hd).
Qed.

Lemma piecewise_nests_witness :
  iteration_order (fun d => d)
  /\ Forall2 (extracts_piece (_recursive_dom_to_tree (fun d => d)))
       [Element "piece" [] [Element "ci" [] [Text "v1"]; Element "ci" [] [Text "c1"]];
        Element "piece" [] [Element "ci" [] [Text "v2"]; Element "ci" [] [Text "c2"]];
        Element "piece" [] [Element "ci" [] [Text "v3"]; Element "ci" [] [Text "c3"]]]
       [(Name "c1", Name "v1"); (Name "c2", Name "v2"); (Name "c3", Name "v3")]
  /\ extracts_otherwise (_recursive_dom_to_tree (fun d => d))
       [Element "otherwise" [] [Element "ci" [] [Text "d"]]] (Some (Name "d"))
  /\ dom_to_tree (fun d => d)
       (Element "piecewise" []
          ([Element "piece" [] [Element "ci" [] [Text "v1"]; Element "ci" [] [Text "c1"]];
            Element "piece" [] [Element "ci" [] [Text "v2"]; Element "ci" [] [Text "c2"]];
            Element "piece" [] [Element "ci" [] [Text "v3"]; Element "ci" [] [Text "c3"]]]
           ++ [Element "otherwise" [] [Element "ci" [] [Text "d"]]]))
     = Ok (CaseElse (Name "c1") (Name "v1")
             (CaseElse (Name "c2") (Name "v2")
                (CaseElse (Name "c3") (Name "v3") (Name "d")))).
Proof.
  split; [exact written_order|].
  assert (Hp : Forall2 (extracts_piece (_recursive_dom_to_tree (fun d => d)))
       [Element "piece" [] [Element "ci" [] [Text "v1"]; Element "ci" [] [Text "c1"]];
        Element "piece" [] [Element "ci" [] [Text "v2"]; Element "ci" [] [Text "c2"]];
        Element "piece" [] [Element "ci" [] [Text "v3"]; Element "ci" [] [Text "c3"]]]
       [(Name "c1", Name "v1"); (Name "c2", Name "v2"); (Name "c3", Name "v3")])
    by (repeat (constructor; [apply extracts_piece_intro; reflexivity|]); constructor).
  assert (Ho : extracts_otherwise (_recursive_dom_to_tree (fun d => d))
       [Element "otherwise" [] [Element "ci" [] [Text "d"]]] (Some (Name "d")))
    by (apply extracts_an_otherwise; reflexivity).
  split; [exact Hp|]. split; [exact Ho|].
  exact (piecewise_nests (fun d => d) [] _ _ _ _ _ written_order Hp Ho).
Defined.

(** ** Names that spell a boolean (C9) *)

Lemma emit_extract_document (iteritems : dict -> list (string * string))
    (tree : pyval) (events : list event) (doc : node) :
  tree_to_sax tree = Sax events None ->
  fromMathmlSax events = Ok doc ->
  emit_extract iteritems tree = dom_to_tree iteritems doc.
Proof.
  intros Hwalk Hdoc. unfold emit_extract.
  rewrite Hwalk. cbn [raised sent]. now rewrite Hdoc.
Qed.

Lemma extract_boolean (iteritems : dict -> list (string * string)) (b : bool) :
  iteration_order iteritems ->
  dom_to_tree iteritems (Element (if b then "true" else "false") [] [])
  = Ok (Const "bool" (VBool b)).
Proof.
  intros order. rewrite extract_element. unfold element_to_tree.
  rewrite (dom_map_constant_spec _ order). now destruct b.
Qed.

(** C9: the names [true] and [false] are emitted as the empty elements
    true and false, the markup of the boolean constants; extraction maps
    these elements to boolean constants, so that emitting and extracting
    [Name('true')] gives [Const(Bool true)] and not the name. *)
Theorem boolean_name_becomes_constant (iteritems : dict -> list (string * string)) :
  iteration_order iteritems ->
  _recursive_tree_to_sax (Name "true") = _open_tag "true" NO_ATTR ;; _close_tag "true"
  /\ _recursive_tree_to_sax (Name "false") = _open_tag "false" NO_ATTR ;; _close_tag "false"
  /\ _recursive_tree_to_sax (Const "bool" (VBool true))
     = _recursive_tree_to_sax (Name "true")
  /\ _recursive_tree_to_sax (Const "bool" (VBool false))
     = _recursive_tree_to_sax (Name "false")
  /\ emit_extract iteritems (Name "true") = Ok (Const "bool" (VBool true))
  /\ emit_extract iteritems (Name "false") = Ok (Const "bool" (VBool false))
  /\ Const "bool" (VBool true) <> Name "true"
  /\ Const "bool" (VBool false) <> Name "false".
Proof.
  intros order. repeat split; try reflexivity; try discriminate.
  - rewrite (emit_extract_document _ (Name "true") _ (Element "true" [] [])
               eq_refl eq_refl).
    exact (extract_boolean iteritems true order).
  - rewrite (emit_extract_document _ (Name "false") _ (Element "false" [] [])
               eq_refl eq_refl).
    exact (extract_boolean iteritems false order).
Qed.

Lemma boolean_name_becomes_constant_witness :
  iteration_order (fun d => d)
  /\ emit_extract (fun d => d) (Name "true") = Ok (Const "bool" (VBool true))
  /\ emit_extract (fun d => d) (Name "false") = Ok (Const "bool" (VBool false)).
Proof.
  split; [exact written_order|].
  pose proof (boolean_name_becomes_constant (fun d => d) written_order) as H.
  split; [exact (proj1 (proj2 (proj2 (proj2 (proj2 H)))))
         | exact (proj1 (proj2 (proj2 (proj2 (proj2 (proj2 H))))))].
Defined.

(** ** Strings and numbers *)

Lemma slice_to_from (n : nat) (s : string) :
  (slice_to n s ++ slice_from n s)%string = s.
Proof.
  revert s. induction n as [|n IH]; intros [|c s]; try reflexivity.
  unfold slice_to in *. cbn. now rewrite IH.
Qed.

Lemma prefix_slice_from (p s : string) :
  prefix p s = true -> s = (p ++ slice_from (String.length p) s)%string.
Proof.
  revert s. induction p as [|a p IH]; intros s; [reflexivity|].
  destruct s as [|b s]; cbn; [discriminate|].
  destruct (ascii_dec a b) as [->|]; [|discriminate].
  intros H. now rewrite <- (IH s H).
Qed.

Lemma node_tag_not_symbol (operator : string) :
  node_tag operator = true -> map_operator operator = None.
Proof.
  intros H. destruct (map_operator operator) eqn:E; [|reflexivity].
  apply operator_symbol_not_tag in E. congruence.
Qed.

Lemma int_of_str_of_int (z : Z) : int_of_str (str_of_int z) = Ok z.
Proof.
  unfold int_of_str, str_of_int.
  rewrite NilZero.isi.
  - now rewrite DecimalZ.of_to.
  - destruct z; cbn; [discriminate | | discriminate].
    intros [= H]. now apply Unsigned.to_uint_nonnil in H.
  - destruct z; cbn; [discriminate | discriminate |].
    intros [= H]. now apply Unsigned.to_uint_nonnil in H.
Qed.

Lemma str_of_int_nonempty (z : Z) : (str_of_int z =? "") = false.
Proof.
  destruct (String.eqb_spec (str_of_int z) "") as [E|]; [|reflexivity].
  pose proof (int_of_str_of_int z) as H. rewrite E in H. discriminate H.
Qed.

(** ** The document the events build *)

Lemma moves_ok (stack : list frame) : moves ok stack stack.
Proof. now split. Qed.

Lemma moves_seq (a b : sax) (p q r : list frame) :
  moves a p q -> moves b q r -> moves (a ;; b) p r.
Proof.
  intros [Ha1 Ha2] [Hb1 Hb2]. split; [now apply raised_seq|].
  intros k. rewrite sent_seq, <- app_assoc by assumption.
  now rewrite Ha2, Hb2.
Qed.

Lemma moves_open (name : string) (attr : attributes) (stack : list frame) :
  moves (_open_tag name attr) stack ((name, attr, []) :: stack).
Proof. now split. Qed.

Lemma moves_close (name n pn : string) (a pa : attributes)
    (children siblings : list node) (stack : list frame) :
  moves (_close_tag name) ((n, a, children) :: (pn, pa, siblings) :: stack)
        ((pn, pa, siblings ++ [Element n a children]) :: stack).
Proof. now split. Qed.

Lemma builds_characters (content : string) : builds (send (characters content)) [Text content].
Proof. intros n a children stack. now split. Qed.

Lemma builds_empty_element (name : string) (attr : attributes) :
  builds (_write_element name None attr) [Element name attr []].
Proof. intros n a children stack. now split. Qed.

Lemma builds_text_element (name content : string) (attr : attributes) :
  (content =? "") = false ->
  builds (_write_element name (Some content) attr) [Element name attr [Text content]].
Proof. intros H n a children stack. unfold _write_element. rewrite H. now split. Qed.

Lemma builds_for_each (f : pyval -> sax) (l : list pyval) (nodes : list node) :
  Forall2 (fun x e => builds (f x) [e]) l nodes -> builds (for_each f l) nodes.
Proof.
  induction 1 as [|x e l nodes Hx _ IH]; intros n a children stack; cbn [for_each].
  - rewrite app_nil_r. apply moves_ok.
  - eapply moves_seq; [apply Hx|].
    change (e :: nodes) with ([e] ++ nodes). rewrite app_assoc. apply IH.
Qed.

Lemma builds_send_function (rec : pyval -> sax) (fname : string)
    (rest : list pyval) (nodes : list node) :
  Forall2 (fun x e => builds (rec x) [e]) rest nodes ->
  builds (_send_function rec fname rest)
         [Element "apply" [] (Element fname [] [] :: nodes)].
Proof.
  intros H n a children stack. unfold _send_function.
  eapply moves_seq; [apply moves_open|].
  eapply moves_seq; [apply builds_empty_element|].
  eapply moves_seq; [apply (builds_for_each _ _ _ H) | apply moves_close].
Qed.

Lemma builds_send_list (rec : pyval -> sax) (rest : list pyval)
    (list_type : string) (attr : attributes) (nodes : list node) :
  Forall2 (fun x e => builds (rec x) [e]) rest nodes ->
  builds (_send_list rec rest list_type attr) [Element list_type attr nodes].
Proof.
  intros H n a children stack. unfold _send_list.
  eapply moves_seq; [apply moves_open|].
  eapply moves_seq; [apply (builds_for_each _ _ _ H) | apply moves_close].
Qed.

Lemma builds_send_case (rec : pyval -> sax) (c v : pyval) (ec ev : node) :
  builds (rec c) [ec] -> builds (rec v) [ev] ->
  builds (_send_case rec [c; v])
         [Element "piecewise" [] [Element "piece" [] [ev; ec]]].
Proof.
  intros Hc Hv n a children stack. unfold _send_case.
  eapply moves_seq; [apply moves_open|].
  eapply moves_seq; [apply moves_open|].
  eapply moves_seq; [apply Hv|].
  eapply moves_seq; [apply Hc|].
  eapply moves_seq; [apply moves_close|].
  eapply moves_seq; [apply moves_ok | apply moves_close].
Qed.

Lemma builds_send_case_else (rec : pyval -> sax) (c v o : pyval) (ec ev eo : node) :
  builds (rec c) [ec] -> builds (rec v) [ev] -> builds (rec o) [eo] ->
  builds (_send_case rec [c; v; o])
         [Element "piecewise" []
            [Element "piece" [] [ev; ec]; Element "otherwise" [] [eo]]].
Proof.
  intros Hc Hv Ho n a children stack. unfold _send_case.
  eapply moves_seq; [apply moves_open|].
  eapply moves_seq; [apply moves_open|].
  eapply moves_seq; [apply Hv|].
  eapply moves_seq; [apply Hc|].
  eapply moves_seq; [apply moves_close|].
  eapply moves_seq; [|apply moves_close].
  eapply moves_seq; [apply moves_open|].
  eapply moves_seq; [apply Ho | apply moves_close].
Qed.

Lemma builds_bin_constant (typename : string) (cls : paircls) (p1 p2 : string) :
  builds (_send_bin_constant typename (VPair cls p1 p2))
         [Element "cn" [("type", typename)]
            [Text p1; Element "sep" [] []; Text p2]].
Proof. intros n a children stack. now split. Qed.

Lemma builds_document (tree : pyval) (documentElement : node) :
  builds (_recursive_tree_to_sax tree) [documentElement] ->
  tree_to_sax tree
  = Sax (startDocument :: startPrefixMapping None MATHML_NAMESPACE_URI
           :: sent (_recursive_tree_to_sax tree)
           ++ [endPrefixMapping None; endDocument]) None
  /\ fromMathmlSax (sent (tree_to_sax tree)) = Ok documentElement.
Proof.
  intros H. destruct (H "#document" [] [] []) as [Hr Hb].
  assert (E : tree_to_sax tree
              = Sax (startDocument :: startPrefixMapping None MATHML_NAMESPACE_URI
                       :: sent (_recursive_tree_to_sax tree)
                       ++ [endPrefixMapping None; endDocument]) None).
  { unfold tree_to_sax, seq; cbn. now rewrite Hr. }
  split; [exact E|]. rewrite E. unfold fromMathmlSax, document_frame.
  cbn [sent build_dom]. now rewrite Hb.
Qed.

(** ** Emission followed by extraction (C1, C10) *)

Section RoundTrip.
Variable iteritems : dict -> list (string * string).
Hypothesis order : iteration_order iteritems.

Let rec := _recursive_dom_to_tree iteritems.

Lemma extract_unfold (mtype : string) (attrs : attributes) (children : list node) :
  _recursive_dom_to_tree iteritems (Element mtype attrs children)
  = element_to_tree iteritems rec mtype attrs children.
Proof. reflexivity. Qed.

Lemma round_trips_name (id : string) :
  nonempty id = true -> (id =? "true") = false -> (id =? "false") = false ->
  round_trips iteritems (Name id).
Proof.
  intros Hne Ht Hf. unfold round_trips, nonempty in *.
  apply negb_true_iff in Hne.
  assert (E : _recursive_tree_to_sax (Name id)
              = match map_constant id with
                | Some constant => _write_element constant None NO_ATTR
                | None => _write_element "ci" (Some id) NO_ATTR
                end) by reflexivity.
  rewrite E. clear E. destruct (map_constant id) as [constant|] eqn:Hc.
  - exists (Element constant [] []). split; [apply builds_empty_element|].
    rewrite extract_unfold. unfold element_to_tree.
    rewrite (dom_map_constant_spec _ order).
    unfold map_constant in Hc. cbn [dict_get _ELEMENT_CONSTANT_MAP] in Hc.
    repeat match type of Hc with
           | context [String.eqb ?k id] =>
             destruct (String.eqb_spec k id) as [<-|_];
             [first [discriminate Ht | discriminate Hf
                    | injection Hc as <-; reflexivity] |]
           end.
    discriminate Hc.
  - exists (Element "ci" [] [Text id]). split; [now apply builds_text_element|].
    rewrite extract_unfold. unfold element_to_tree.
    now rewrite (dom_map_constant_spec _ order).
Qed.

Lemma dash_free_not_enotation (kind : string) :
  (remove_dashes kind =? kind) = true -> (kind =? "e-notation") = false.
Proof.
  destruct (String.eqb_spec kind "e-notation") as [->|]; [|reflexivity].
  discriminate.
Qed.

Lemma round_trips_constant (operator : string) (v : pyval) :
  prefix "const:" operator = true ->
  canonical_constant operator v = true ->
  round_trips iteritems (VList [VStr operator; v]).
Proof.
  intros Hp Hc. unfold canonical_constant in Hc.
  apply prefix_slice_from in Hp. cbn [String.length] in Hp.
  set (kind := slice_from 6 operator) in *. clearbody kind. subst operator.
  unfold round_trips.
  destruct v as [?|b|z|text|cls p1 p2|?]; [| | | |destruct cls|];
    try discriminate.
  - apply String.eqb_eq in Hc as ->.
    exists (Element (if b then "true" else "false") [] []). split.
    + destruct b; apply builds_empty_element.
    + exact (extract_boolean iteritems b order).
  - apply String.eqb_eq in Hc as ->.
    exists (Element "cn" [("type", "integer")] [Text (str_of_int z)]). split.
    + apply (builds_text_element "cn"), str_of_int_nonempty.
    + rewrite extract_unfold. unfold element_to_tree.
      rewrite (dom_map_constant_spec _ order).
      cbn -[int_of_str str_of_int]. now rewrite int_of_str_of_int.
  - rewrite !andb_true_iff in Hc. destruct Hc as [[Hne Hd] Hk].
    apply negb_true_iff in Hne. apply String.eqb_eq in Hd.
    apply negb_true_iff in Hk. cbn [existsb] in Hk.
    rewrite !orb_false_iff in Hk.
    destruct Hk as (Hbool & Hint & Hcomplex & Hrational & Henotation & _).
    exists (Element "cn" [("type", kind)] [Text text]). split.
    + assert (Hp : prefix "const:" ("const:" ++ kind) = true)
        by (cbn; now destruct kind).
      cbn [_recursive_tree_to_sax]. unfold dispatch. rewrite Hp.
      cbn [map_operator dict_get _FUNCTION_MAP String.eqb Ascii.eqb Bool.eqb
           append].
      rewrite Hbool, Hcomplex, Hrational, Henotation.
      cbn [orb mkstr slice_from append].
      now apply builds_text_element.
    + rewrite extract_unfold. unfold element_to_tree.
      rewrite (dom_map_constant_spec _ order).
      cbn [dict_get String.eqb Ascii.eqb Bool.eqb valuetype bind]. unfold value.
      rewrite Hcomplex, Hrational, (dash_free_not_enotation _ (proj2 (String.eqb_eq _ _) Hd)), Hint.
      cbn [bind]. now rewrite Hd.
  - rewrite !andb_true_iff in Hc. destruct Hc as [[Hk _] _].
    apply String.eqb_eq in Hk as ->.
    exists (Element "cn" [("type", "complex")] [Text p1; Element "sep" [] []; Text p2]).
    split; [apply (builds_bin_constant "complex")|].
    rewrite extract_unfold. unfold element_to_tree.
    now rewrite (dom_map_constant_spec _ order).
  - rewrite !andb_true_iff in Hc. destruct Hc as [[Hk _] _].
    apply String.eqb_eq in Hk as ->.
    exists (Element "cn" [("type", "rational")] [Text p1; Element "sep" [] []; Text p2]).
    split; [apply (builds_bin_constant "rational")|].
    rewrite extract_unfold. unfold element_to_tree.
    now rewrite (dom_map_constant_spec _ order).
  - rewrite !andb_true_iff in Hc. destruct Hc as [[Hk _] _].
    apply String.eqb_eq in Hk as ->.
    exists (Element "cn" [("type", "e-notation")] [Text p1; Element "sep" [] []; Text p2]).
    split; [apply (builds_bin_constant "e-notation")|].
    rewrite extract_unfold. unfold element_to_tree.
    now rewrite (dom_map_constant_spec _ order).
Qed.

Lemma round_trips_operands (rest : list pyval) :
  Forall (fun x => canonical iteritems x = true -> round_trips iteritems x) rest ->
  forallb (canonical iteritems) rest = true ->
  exists nodes,
    Forall2 (fun x e => builds (_recursive_tree_to_sax x) [e]) rest nodes
    /\ map_result rec nodes = Ok rest.
Proof.
  induction 1 as [|x rest Hx _ IH]; cbn [forallb].
  - intros _. exists []. split; [constructor | reflexivity].
  - rewrite andb_true_iff. intros [H1 H2].
    destruct (Hx H1) as [e [Hb He]]. destruct (IH H2) as [nodes [Hbs Hes]].
    exists (e :: nodes). split; [now constructor|].
    cbn [map_result]. fold rec in He. now rewrite He, Hes.
Qed.

Lemma round_trips_case (c v : pyval) :
  round_trips iteritems c -> round_trips iteritems v ->
  round_trips iteritems (Case c v).
Proof.
  intros [ec [Hc Hec]] [ev [Hv Hev]].
  exists (Element "piecewise" [] [Element "piece" [] [ev; ec]]). split.
  - apply (builds_send_case _recursive_tree_to_sax); assumption.
  - apply (extract_nested iteritems order [] [Element "piece" [] [ev; ec]] []
             (c, v) [] None).
    + repeat constructor; assumption.
    + constructor.
Qed.

Lemma round_trips_case_else (c v o : pyval) :
  round_trips iteritems c -> round_trips iteritems v -> round_trips iteritems o ->
  round_trips iteritems (CaseElse c v o).
Proof.
  intros [ec [Hc Hec]] [ev [Hv Hev]] [eo [Ho Heo]].
  exists (Element "piecewise" []
            [Element "piece" [] [ev; ec]; Element "otherwise" [] [eo]]). split.
  - apply (builds_send_case_else _recursive_tree_to_sax); assumption.
  - apply (extract_nested iteritems order [] [Element "piece" [] [ev; ec]]
             [Element "otherwise" [] [eo]] (c, v) [] (Some o)).
    + repeat constructor; assumption.
    + now constructor.
Qed.

Lemma round_trips_list (rest : list pyval) (nodes : list node) :
  Forall2 (fun x e => builds (_recursive_tree_to_sax x) [e]) rest nodes ->
  map_result rec nodes = Ok rest ->
  round_trips iteritems (ListOf rest).
Proof.
  intros Hb He. exists (Element "list" [] nodes). split.
  - now apply (builds_send_list _recursive_tree_to_sax rest "list" NO_ATTR).
  - rewrite extract_unfold. unfold element_to_tree.
    rewrite (dom_map_constant_spec _ order).
    cbn [dict_get String.eqb Ascii.eqb Bool.eqb]. now rewrite He.
Qed.

Lemma round_trips_interval (operator : string) (rest : list pyval) (nodes : list node) :
  (slice_to 9 operator =? "interval:") = true ->
  nonempty (slice_from 9 operator) = true ->
  Forall2 (fun x e => builds (_recursive_tree_to_sax x) [e]) rest nodes ->
  map_result rec nodes = Ok rest ->
  round_trips iteritems (VList (VStr operator :: rest)).
Proof.
  intros Hi Hne Hb He. apply String.eqb_eq in Hi.
  pose proof (slice_to_from 9 operator) as Hop. rewrite Hi in Hop.
  set (c := slice_from 9 operator) in *. clearbody c. subst operator.
  apply negb_true_iff in Hne.
  exists (Element "interval" [("closure", c)] nodes). split.
  - assert (E : _recursive_tree_to_sax (VList (VStr ("interval:" ++ c) :: rest))
                = _send_list _recursive_tree_to_sax rest "interval"
                    (_attributes "closure" c)).
    { cbn [_recursive_tree_to_sax]. unfold dispatch.
      cbn -[_send_list _send_function _send_case _attributes].
      replace (substring 0 0 c) with "" by (now destruct c).
      cbn [String.eqb]. now rewrite Hne. }
    rewrite E. now apply builds_send_list.
  - change (_recursive_dom_to_tree iteritems ?e) with (dom_to_tree iteritems e).
    rewrite (extract_interval _ order). fold rec. now rewrite He.
Qed.

Lemma round_trips_apply (operator : string) (rest : list pyval) (nodes : list node) :
  canonical_operator iteritems operator = true ->
  Forall2 (fun x e => builds (_recursive_tree_to_sax x) [e]) rest nodes ->
  map_result rec nodes = Ok rest ->
  round_trips iteritems (Apply operator rest).
Proof.
  unfold canonical_operator. intros Hc Hb He.
  destruct (map_operator operator) as [mapped|] eqn:Hop.
  - exists (Element "apply" [] (Element mapped [] [] :: nodes)). split.
    + cbn [Apply _recursive_tree_to_sax]. unfold dispatch. rewrite Hop.
      now apply builds_send_function.
    + change (_recursive_dom_to_tree iteritems ?e) with (dom_to_tree iteritems e).
      rewrite (extract_apply _ order). fold rec. rewrite He. cbn [bind].
      do 3 f_equal.
      destruct (String.eqb_spec mapped "neq") as [->|Hneq].
      * apply String.eqb_eq in Hc as ->. now apply dom_map_operator_neq.
      * rewrite (dom_map_operator_spec _ order) by assumption.
        unfold map_operator in Hop. cbn [dict_get _FUNCTION_MAP] in Hop.
        repeat match type of Hop with
               | context [String.eqb ?k operator] =>
                 destruct (String.eqb_spec k operator) as [<-|_];
                 [injection Hop as <-; first [reflexivity | now elim Hneq] |]
               end.
        discriminate Hop.
  - rewrite !andb_true_iff, !negb_true_iff in Hc. destruct Hc as [[_ Htag] Hval].
    exists (Element "apply" [] (Element operator [] [] :: nodes)). split.
    + cbn [Apply _recursive_tree_to_sax].
      rewrite function_identifier_dispatch
        by (unfold function_identifier; now rewrite Hop, Htag).
      now apply builds_send_function.
    + change (_recursive_dom_to_tree iteritems ?e) with (dom_to_tree iteritems e).
      rewrite (extract_apply _ order). fold rec. rewrite He. cbn [bind].
      do 3 f_equal. unfold dom_map_operator.
      destruct (dict_get (inverted iteritems _FUNCTION_MAP) operator) as [n|] eqn:E;
        [|reflexivity].
      apply (inverted_sound _ order) in E.
      assert (Hex : existsb (fun nv => snd nv =? operator) _FUNCTION_MAP = true)
        by (apply existsb_exists; exists (n, operator); split;
            [assumption | apply String.eqb_refl]).
      congruence.
Qed.

(** Every canonical tree is emitted as one element, which is extracted to
    the tree. *)
Lemma canonical_round_trips (tree : pyval) :
  canonical iteritems tree = true -> round_trips iteritems tree.
Proof.
  induction tree as [| | | | |items IH] using pyval_nested_ind;
    try discriminate.
  destruct items as [|[op| | | | |] rest]; try discriminate.
  inversion_clear IH as [|? ? _ IH']. cbn [canonical].
  destruct (String.eqb_spec op "name") as [->|_].
  { destruct rest as [|[id| | | | |] [|? ?]]; try discriminate.
    rewrite !andb_true_iff, !negb_true_iff. intros [[H1 H2] H3].
    now apply round_trips_name. }
  destruct (prefix "const:" op) eqn:Hp.
  { destruct rest as [|v [|? ?]]; try discriminate.
    now apply round_trips_constant. }
  destruct (String.eqb_spec op "case") as [->|_].
  { destruct rest as [|c [|v [|o [|? ?]]]]; try discriminate;
      inversion_clear IH' as [|? ? Hc IH'']; inversion_clear IH'' as [|? ? Hv IH3];
      rewrite ?andb_true_iff.
    - intros [H1 H2]. apply round_trips_case; auto.
    - inversion_clear IH3 as [|? ? Ho _]. intros [[H1 H2] H3].
      apply round_trips_case_else; auto. }
  destruct (String.eqb_spec op "list") as [->|_].
  { intros H. destruct (round_trips_operands rest IH' H) as [nodes [Hb He]].
    now apply (round_trips_list rest nodes). }
  destruct (slice_to 9 op =? "interval:") eqn:Hi.
  { rewrite andb_true_iff. intros [Hne H].
    destruct (round_trips_operands rest IH' H) as [nodes [Hb He]].
    now apply (round_trips_interval op rest nodes). }
  rewrite andb_true_iff. intros [Hop H].
  destruct (round_trips_operands rest IH' H) as [nodes [Hb He]].
  now apply (round_trips_apply op rest nodes).
Qed.

Lemma round_trips_emit_extract (tree : pyval) :
  round_trips iteritems tree -> emit_extract iteritems tree = Ok tree.
Proof.
  intros [e [Hb He]]. destruct (builds_document tree e Hb) as [E F].
  unfold emit_extract. cbv zeta. rewrite F.
  rewrite E at 1. cbn [raised bind]. exact He.
Qed.
End RoundTrip.




(** C10: [<>] and [!=] are both emitted as the neq element, and whatever
    order the inverted table is built in, extraction gives every neq
    element one and the same symbol, [<>] or [!=]; an Apply node written
    with the other symbol comes back from emission and extraction with that
    symbol in its place. *)
Theorem inequality_symbols_collapse (iteritems : dict -> list (string * string)) :
  iteration_order iteritems ->
  exists symbol other,
    (symbol = "<>" /\ other = "!=" \/ symbol = "!=" /\ other = "<>")
    /\ (forall default, dom_map_operator iteritems "neq" default = symbol)
    /\ (forall operands,
          _recursive_tree_to_sax (Apply "<>" operands)
          = _recursive_tree_to_sax (Apply "!=" operands))
    /\ (forall operands,
          forallb (canonical iteritems) operands = true ->
          emit_extract iteritems (Apply other operands) = Ok (Apply symbol operands)).
Proof.
  intros order.
  assert (Hsame : forall operands,
             emit_extract iteritems (Apply "<>" operands)
             = emit_extract iteritems (Apply "!=" operands)) by reflexivity.
  assert (Hback : forall operands,
             forallb (canonical iteritems) operands = true ->
             emit_extract iteritems (Apply (neq_symbol iteritems) operands)
             = Ok (Apply (neq_symbol iteritems) operands)).
  { intros operands H. apply round_trips_emit_extract, canonical_round_trips;
      [assumption|].
    destruct (neq_symbol_cases iteritems order) as [E|E]; rewrite E;
      cbn [Apply canonical String.eqb Ascii.eqb Bool.eqb prefix slice_to substring];
      unfold canonical_operator; cbn [map_operator dict_get _FUNCTION_MAP
                                      String.eqb Ascii.eqb Bool.eqb];
      rewrite E; cbn [String.eqb Ascii.eqb Bool.eqb andb]; exact H. }
  exists (neq_symbol iteritems).
  destruct (neq_symbol_cases iteritems order) as [E|E].
  - exists "!=". repeat split.
    + now left.
    + intros default. now apply dom_map_operator_neq.
    + intros operands H. rewrite <- Hsame. rewrite E in Hback |- *. now apply Hback.
  - exists "<>". repeat split.
    + now right.
    + intros default. now apply dom_map_operator_neq.
    + intros operands H. rewrite Hsame. rewrite E in Hback |- *. now apply Hback.
Qed.

Lemma inequality_symbols_collapse_witness :
  iteration_order (fun d => d)
  /\ exists symbol other,
       (symbol = "<>" /\ other = "!=" \/ symbol = "!=" /\ other = "<>")
       /\ (forall default, dom_map_operator (fun d => d) "neq" default = symbol)
       /\ (forall operands,
             _recursive_tree_to_sax (Apply "<>" operands)
             = _recursive_tree_to_sax (Apply "!=" operands))
       /\ (forall operands,
             forallb (canonical (fun d => d)) operands = true ->
             emit_extract (fun d => d) (Apply other operands)
             = Ok (Apply symbol operands)).
Proof.
  split; [exact written_order|].
  exact (inequality_symbols_collapse (fun d => d) written_order).
Defined.

(** * Further properties of the emitter *)

(** ** What a walk has sent when it raises *)

Lemma open_after_app (a b : list event) :
  forall s,
    open_after s (a ++ b)
    = match open_after s a with
      | Some s1 => open_after s1 b
      | None => None
      end.
Proof.
  induction a as [|e a IH]; intros s; [reflexivity|].
  destruct e as [| | | |[uri n] q at_|c|[uri n] q]; cbn [app open_after];
    try reflexivity.
  - destruct (_ && _); [apply IH | reflexivity].
  - destruct s; [reflexivity | apply IH].
  - destruct s as [|top s]; [reflexivity|].
    destruct (_ && _ && _); [apply IH | reflexivity].
Qed.

Lemma well_nested_open_after (events : list event) :
  forall s, well_nested s events = true <-> open_after s events = Some [].
Proof.
  induction events as [|e events IH]; intros s.
  - destruct s; cbn; split; congruence.
  - destruct e as [| | | |[uri n] q at_|c|[uri n] q]; cbn [well_nested open_after];
      try (split; discriminate).
    + destruct ((uri =? MATHML_NAMESPACE_URI) && (q =? n)); cbn [andb];
        [apply IH | split; discriminate].
    + destruct s; [split; discriminate | apply IH].
    + destruct s as [|top s]; [split; discriminate|].
      destruct ((uri =? MATHML_NAMESPACE_URI) && (q =? n) && (top =? n));
        cbn [andb]; [apply IH | split; discriminate].
Qed.

Lemma nests_ok : nests [] ok.
Proof. intros s. now exists []. Qed.

Lemma nests_throw (pending : list string) (e : exn) : nests pending (throw e).
Proof. intros s. exists pending. split; [reflexivity | discriminate]. Qed.

Lemma nests_open (pending : list string) (name : string) (attr : attributes)
    (rest : sax) :
  nests (name :: pending) rest -> nests pending (_open_tag name attr ;; rest).
Proof.
  intros H s. destruct (H s) as [s' [H1 H2]]. exists s'. split.
  - unfold seq. cbn [_open_tag send raised sent app open_after].
    now rewrite !String.eqb_refl.
  - intros Hr. apply raised_seq in Hr. tauto.
Qed.

Lemma nests_close (pending : list string) (name : string) (rest : sax) :
  nests pending rest -> nests (name :: pending) (_close_tag name ;; rest).
Proof.
  intros H s. destruct (H s) as [s' [H1 H2]]. exists s'. split.
  - unfold seq. cbn [_close_tag send raised sent app open_after].
    now rewrite !String.eqb_refl.
  - intros Hr. apply raised_seq in Hr. tauto.
Qed.

Lemma nests_close_last (name : string) : nests [name] (_close_tag name).
Proof.
  intros s. exists []. split; [|reflexivity].
  cbn. now rewrite !String.eqb_refl.
Qed.

Lemma nests_characters (pending : list string) (name content : string) (rest : sax) :
  nests (name :: pending) rest ->
  nests (name :: pending) (send (characters content) ;; rest).
Proof.
  intros H s. destruct (H s) as [s' [H1 H2]]. exists s'. split; [exact H1|].
  intros Hr. apply raised_seq in Hr. tauto.
Qed.

Lemma nests_then (pending : list string) (a b : sax) :
  nests [] a -> nests pending b -> nests pending (a ;; b).
Proof.
  intros Ha Hb s. destruct (Ha (pending ++ s)) as [s1 [Ha1 Ha2]].
  cbn [app] in Ha1. unfold seq. destruct (raised a) as [e|] eqn:Hr.
  - exists (s1 ++ pending). rewrite <- app_assoc. split; [exact Ha1 | congruence].
  - rewrite (Ha2 eq_refl) in Ha1. destruct (Hb s) as [s' [Hb1 Hb2]].
    exists s'. cbn [sent raised]. rewrite open_after_app, Ha1. auto.
Qed.

Lemma nests_write_element (name : string) (content : option string)
    (attr : attributes) :
  nests [] (_write_element name content attr).
Proof.
  unfold _write_element. apply (nests_open [] name attr).
  destruct content as [c|]; [destruct (c =? "")|].
  - apply nests_then; [apply nests_ok | apply nests_close_last].
  - apply nests_characters, nests_close_last.
  - apply nests_then; [apply nests_ok | apply nests_close_last].
Qed.

Lemma nests_for_each (f : pyval -> sax) (l : list pyval) (pending : list string)
    (rest : sax) :
  Forall (fun x => nests [] (f x)) l ->
  nests pending rest -> nests pending (for_each f l ;; rest).
Proof.
  intros H Hrest. induction H as [|x l Hx _ IH]; cbn [for_each].
  - apply nests_then; [apply nests_ok | exact Hrest].
  - rewrite seq_assoc. now apply nests_then.
Qed.

Lemma nests_bin_constant (typename : string) (v : pyval) :
  nests [] (_send_bin_constant typename v).
Proof.
  unfold _send_bin_constant.
  destruct (py_tuple v) as [parts|]; [|apply nests_throw].
  destruct (map_result mkstr parts) as [strs|e]; [|apply nests_throw].
  apply (nests_open [] "cn").
  destruct strs as [|p0 strs]; [apply nests_throw|].
  apply nests_characters, nests_then; [apply nests_write_element|].
  destruct strs as [|p1 strs]; [apply nests_throw|].
  apply nests_characters, nests_close_last.
Qed.

Lemma nests_send_function (rec : pyval -> sax) (fname : string) (rest : list pyval) :
  Forall (fun x => nests [] (rec x)) rest -> nests [] (_send_function rec fname rest).
Proof.
  intros H. unfold _send_function. apply (nests_open [] "apply").
  apply nests_then; [apply nests_write_element|].
  apply nests_for_each; [exact H | apply nests_close_last].
Qed.

Lemma nests_send_list (rec : pyval -> sax) (rest : list pyval)
    (list_type : string) (attr : attributes) :
  Forall (fun x => nests [] (rec x)) rest ->
  nests [] (_send_list rec rest list_type attr).
Proof.
  intros H. unfold _send_list. apply (nests_open [] list_type).
  apply nests_for_each; [exact H | apply nests_close_last].
Qed.

Lemma nests_send_case (rec : pyval -> sax) (rest : list pyval) :
  Forall (fun x => nests [] (rec x)) rest -> nests [] (_send_case rec rest).
Proof.
  intros H. unfold _send_case.
  apply (nests_open [] "piecewise"), (nests_open ["piecewise"] "piece").
  destruct rest as [|c [|v more]]; try apply nests_throw.
  inversion_clear H as [|? ? Hc H']. inversion_clear H' as [|? ? Hv Hmore].
  apply nests_then; [exact Hv|]. apply nests_then; [exact Hc|].
  apply nests_close. apply nests_then; [|apply nests_close_last].
  destruct more as [|o more]; [apply nests_ok|].
  inversion_clear Hmore as [|? ? Ho _].
  apply (nests_open [] "otherwise"). apply nests_then; [exact Ho|].
  apply nests_close_last.
Qed.

Lemma nests_dispatch (rec : pyval -> sax) (operator : string) (rest : list pyval) :
  Forall (fun x => nests [] (rec x)) rest -> nests [] (dispatch rec operator rest).
Proof.
  intros H. unfold dispatch.
  destruct (map_operator operator); [now apply nests_send_function|].
  destruct (operator =? "name").
  { destruct rest as [|v ?]; [apply nests_throw|].
    destruct (mkstr v); [|apply nests_throw].
    destruct (map_constant a); apply nests_write_element. }
  destruct (prefix "const:" operator).
  { destruct rest as [|v ?]; [apply nests_throw|].
    destruct (operator =? "const:bool"); [apply nests_write_element|].
    destruct ((operator =? "const:complex") || (operator =? "const:rational"));
      [apply nests_bin_constant|].
    destruct (operator =? "const:enotation"); [apply nests_bin_constant|].
    destruct (mkstr v); [apply nests_write_element | apply nests_throw]. }
  destruct (operator =? "case"); [now apply nests_send_case|].
  destruct (slice_to 4 operator =? "list"); [now apply nests_send_list|].
  destruct (slice_to 9 operator =? "interval:"); [now apply nests_send_list|].
  now apply nests_send_function.
Qed.

Lemma nests_character (elem : pyval) : nests [] (character_to_sax elem).
Proof.
  destruct elem as [[|c [|? ?]]| | | | |]; try apply nests_throw.
  apply nests_dispatch. constructor.
Qed.

Lemma nests_string (tree : string) : nests [] (string_to_sax tree).
Proof.
  destruct tree as [|c tree]; [apply nests_throw|].
  apply nests_dispatch. apply Forall_forall. intros x _. apply nests_character.
Qed.

Lemma nests_recursive_tree_to_sax (tree : pyval) :
  nests [] (_recursive_tree_to_sax tree).
Proof.
  induction tree as [str| | | | |items IH] using pyval_nested_ind;
    try apply nests_throw.
  - apply nests_string.
  - destruct items as [|[op| | | | |] rest]; try apply nests_throw.
    cbn [_recursive_tree_to_sax]. apply nests_dispatch. now inversion IH.
Qed.

Lemma string_walk_of_a_character (c : ascii) :
  character_to_sax (VStr (String c "")) = string_to_sax (String c "").
Proof.
  cbn [character_to_sax string_to_sax list_ascii_of_string map].
  unfold dispatch, _send_function, _send_list, _send_case.
  destruct (map_operator (String c "")); [reflexivity|].
  repeat match goal with
         | |- context [if ?b then _ else _] => destruct b
         end; reflexivity.
Qed.

(** X1: whatever the tree, well formed or not, as long as the walk does
    not reach one of the few points marked [OutsideModel], [tree_to_sax]
    sends the document start and the prefix mapping and then events that are
    properly nested as far as they go: no element is closed that is not the
    innermost open one, every name is in the MathML namespace, text lies
    inside an element.  When the walk ends normally no element is left open
    and the end of the mapping and of the document follow; when it raises,
    the elements [still_open] are never closed and neither
    [endPrefixMapping] nor [endDocument] is sent. *)
Theorem tree_to_sax_sends_a_nested_prefix (tree : pyval) :
  raised (_recursive_tree_to_sax tree) <> Some OutsideModel ->
  exists body still_open,
    open_after [] body = Some still_open
    /\ match raised (_recursive_tree_to_sax tree) with
       | None =>
         still_open = []
         /\ tree_to_sax tree
            = Sax (startDocument :: startPrefixMapping None MATHML_NAMESPACE_URI
                     :: body ++ [endPrefixMapping None; endDocument]) None
       | Some e =>
         tree_to_sax tree
         = Sax (startDocument :: startPrefixMapping None MATHML_NAMESPACE_URI
                  :: body) (Some e)
       end.
Proof.
  intros _.
  destruct (nests_recursive_tree_to_sax tree []) as [s' [H1 H2]].
  cbn [app] in H1. rewrite app_nil_r in H1.
  exists (sent (_recursive_tree_to_sax tree)), s'. split; [exact H1|].
  unfold tree_to_sax, seq. cbn [send raised sent app].
  destruct (_recursive_tree_to_sax tree) as [evs [e|]]; cbn [raised sent] in *;
    [reflexivity|].
  split; [now apply H2 | reflexivity].
Qed.

Lemma tree_to_sax_sends_a_nested_prefix_witness :
  raised (_recursive_tree_to_sax (VList [VStr "+"; VStr "x"; VStr "y"]))
  <> Some OutsideModel
  /\ tree_to_sax (VList [VStr "+"; VStr "x"; VStr "y"])
     = Sax [startDocument; startPrefixMapping None MATHML_NAMESPACE_URI;
            startElementNS (MATHML_NAMESPACE_URI, "apply") "apply" [];
            startElementNS (MATHML_NAMESPACE_URI, "plus") "plus" [];
            endElementNS (MATHML_NAMESPACE_URI, "plus") "plus";
            startElementNS (MATHML_NAMESPACE_URI, "apply") "apply" [];
            startElementNS (MATHML_NAMESPACE_URI, "x") "x" [];
            endElementNS (MATHML_NAMESPACE_URI, "x") "x";
            endElementNS (MATHML_NAMESPACE_URI, "apply") "apply";
            startElementNS (MATHML_NAMESPACE_URI, "apply") "apply" [];
            startElementNS (MATHML_NAMESPACE_URI, "y") "y" [];
            endElementNS (MATHML_NAMESPACE_URI, "y") "y";
            endElementNS (MATHML_NAMESPACE_URI, "apply") "apply";
            endElementNS (MATHML_NAMESPACE_URI, "apply") "apply";
            endPrefixMapping None; endDocument] None
  /\ exists body still_open,
       open_after [] body = Some still_open
       /\ match raised (_recursive_tree_to_sax (VList [VStr "+"; VStr "x"; VStr "y"])) with
          | None =>
            still_open = []
            /\ tree_to_sax (VList [VStr "+"; VStr "x"; VStr "y"])
               = Sax (startDocument :: startPrefixMapping None MATHML_NAMESPACE_URI
                        :: body ++ [endPrefixMapping None; endDocument]) None
          | Some e =>
            tree_to_sax (VList [VStr "+"; VStr "x"; VStr "y"])
            = Sax (startDocument :: startPrefixMapping None MATHML_NAMESPACE_URI
                     :: body) (Some e)
          end.
Proof.
  split; [discriminate|]. split; [reflexivity|].
  apply tree_to_sax_sends_a_nested_prefix. discriminate.
Defined.

(** ** One root element *)

Lemma level_ok : level ok.
Proof. intros _ d k. reflexivity. Qed.

Lemma level_characters (content : string) : level (send (characters content)).
Proof. intros _ d k. reflexivity. Qed.

Lemma closes_throw (pending : nat) (e : exn) : closes pending (throw e).
Proof. intros H. discriminate H. Qed.

Lemma closes_open (pending : nat) (name : string) (attr : attributes) (rest : sax) :
  closes (S pending) rest -> closes pending (_open_tag name attr ;; rest).
Proof.
  intros H Hr. apply raised_seq in Hr as [_ Hr]. destruct (H Hr) as [H1 H2].
  rewrite sent_seq by reflexivity. cbn [_open_tag send sent app]. split.
  - intros d k. cbn [closes_at]. apply (H1 d k).
  - intros _. cbn [closes_at]. apply H2. lia.
Qed.

Lemma closes_close (pending : nat) (name : string) (rest : sax) :
  1 <= pending -> closes pending rest -> closes (S pending) (_close_tag name ;; rest).
Proof.
  intros Hp H Hr. apply raised_seq in Hr as [_ Hr]. destruct (H Hr) as [H1 H2].
  rewrite sent_seq by reflexivity. cbn [_close_tag send sent app].
  destruct pending as [|p]; [lia|]. split.
  - intros d k. cbn [Nat.add closes_at]. apply (H1 d k).
  - intros _. cbn [closes_at]. now apply H2.
Qed.

Lemma closes_close_last (name : string) : closes 1 (_close_tag name).
Proof. intros _. split; reflexivity. Qed.

Lemma closes_then (pending : nat) (a b : sax) :
  1 <= pending -> level a -> closes pending b -> closes pending (a ;; b).
Proof.
  intros Hp Ha Hb Hr. apply raised_seq in Hr as [Hra Hrb].
  destruct (Hb Hrb) as [H1 H2]. rewrite sent_seq by assumption.
  destruct pending as [|p]; [lia|]. split.
  - intros d k. rewrite <- app_assoc. cbn [Nat.add].
    rewrite (Ha Hra). apply (H1 d k).
  - intros _. rewrite (Ha Hra). now apply H2.
Qed.

(** [element w]: a walk that ends normally has sent exactly one element. *)
Lemma element_open (name : string) (attr : attributes) (rest : sax) :
  closes 1 rest ->
  level (_open_tag name attr ;; rest)
  /\ (raised (_open_tag name attr ;; rest) = None ->
      one_element (sent (_open_tag name attr ;; rest)) = true).
Proof.
  intros H. split.
  - intros Hr d k. apply raised_seq in Hr as [_ Hr]. destruct (H Hr) as [H1 _].
    rewrite sent_seq by reflexivity. cbn [_open_tag send sent app closes_at].
    apply (H1 d k).
  - intros Hr. apply raised_seq in Hr as [_ Hr]. destruct (H Hr) as [_ H2].
    rewrite sent_seq by reflexivity. cbn [_open_tag send sent app].
    unfold one_element. cbn [closes_at]. apply H2. lia.
Qed.

Lemma closes_write_element_rest (name : string) (content : option string) :
  closes 1 (match content with
            | Some c => if c =? "" then ok else send (characters c)
            | None => ok
            end ;; send (endElementNS (MATHML_NAMESPACE_URI, name) name)).
Proof.
  apply closes_then; [lia | | apply (closes_close_last name)].
  destruct content as [c|]; [destruct (c =? "")|];
    auto using level_ok, level_characters.
Qed.

Lemma level_write_element (name : string) (content : option string)
    (attr : attributes) :
  level (_write_element name content attr).
Proof. apply (element_open name attr), closes_write_element_rest. Qed.

Lemma closes_for_each (f : pyval -> sax) (l : list pyval) (pending : nat) (rest : sax) :
  1 <= pending ->
  Forall (fun x => level (f x)) l ->
  closes pending rest -> closes pending (for_each f l ;; rest).
Proof.
  intros Hp H Hrest. induction H as [|x l Hx _ IH]; cbn [for_each].
  - apply closes_then; [assumption | apply level_ok | exact Hrest].
  - rewrite seq_assoc. now apply closes_then.
Qed.

Lemma closes_bin_constant_rest (strs : list string) :
  closes 1 match strs with
           | [] => throw IndexError
           | p0 :: parts' =>
             send (characters p0) ;;
             _write_element "sep" None NO_ATTR ;;
             match parts' with
             | [] => throw IndexError
             | p1 :: _ => send (characters p1) ;; _close_tag "cn"
             end
           end.
Proof.
  destruct strs as [|p0 strs]; [apply closes_throw|].
  apply closes_then; [lia | apply level_characters|].
  apply closes_then; [lia | apply level_write_element|].
  destruct strs as [|p1 strs]; [apply closes_throw|].
  apply closes_then; [lia | apply level_characters | apply closes_close_last].
Qed.

Lemma closes_send_case_rest (rec : pyval -> sax) (rest : list pyval) :
  Forall (fun x => level (rec x)) rest ->
  closes 2 match rest with
           | cond :: value :: more =>
             rec value ;; rec cond ;; _close_tag "piece" ;;
             match more with
             | otherwise :: _ =>
               _open_tag "otherwise" NO_ATTR ;; rec otherwise ;; _close_tag "otherwise"
             | [] => ok
             end ;;
             _close_tag "piecewise"
           | _ => throw IndexError
           end.
Proof.
  intros H. destruct rest as [|c [|v more]]; try apply closes_throw.
  inversion_clear H as [|? ? Hc H']. inversion_clear H' as [|? ? Hv Hmore].
  apply closes_then; [lia | exact Hv|].
  apply closes_then; [lia | exact Hc|].
  apply closes_close; [lia|].
  apply closes_then; [lia | | apply closes_close_last].
  destruct more as [|o more]; [apply level_ok|].
  inversion_clear Hmore as [|? ? Ho _].
  apply (element_open "otherwise").
  apply closes_then; [lia | exact Ho | apply closes_close_last].
Qed.

Lemma one_element_dispatch (rec : pyval -> sax) (operator : string) (rest : list pyval) :
  Forall (fun x => level (rec x)) rest ->
  level (dispatch rec operator rest)
  /\ (raised (dispatch rec operator rest) = None ->
      one_element (sent (dispatch rec operator rest)) = true).
Proof.
  intros H.
  assert (Hfun : forall fname,
             level (_send_function rec fname rest)
             /\ (raised (_send_function rec fname rest) = None ->
                 one_element (sent (_send_function rec fname rest)) = true)).
  { intros fname. apply (element_open "apply").
    apply closes_then; [lia | apply level_write_element|].
    apply closes_for_each; [lia | exact H | apply closes_close_last]. }
  assert (Hlist : forall list_type attr,
             level (_send_list rec rest list_type attr)
             /\ (raised (_send_list rec rest list_type attr) = None ->
                 one_element (sent (_send_list rec rest list_type attr)) = true)).
  { intros list_type attr. apply (element_open list_type).
    apply closes_for_each; [lia | exact H | apply closes_close_last]. }
  assert (Hthrow : forall e,
             level (throw e)
             /\ (raised (throw e) = None -> one_element (sent (throw e)) = true))
    by (intros e; split; intros Hr; discriminate Hr).
  assert (Hwrite : forall name content attr,
             level (_write_element name content attr)
             /\ (raised (_write_element name content attr) = None ->
                 one_element (sent (_write_element name content attr)) = true))
    by (intros name content attr; apply (element_open name attr),
                                    closes_write_element_rest).
  assert (Hbin : forall typename v,
             level (_send_bin_constant typename v)
             /\ (raised (_send_bin_constant typename v) = None ->
                 one_element (sent (_send_bin_constant typename v)) = true)).
  { intros typename v. unfold _send_bin_constant.
    destruct (py_tuple v) as [parts|]; [|apply Hthrow].
    destruct (map_result mkstr parts) as [strs|e]; [|apply Hthrow].
    apply (element_open "cn"), closes_bin_constant_rest. }
  unfold dispatch.
  destruct (map_operator operator); [apply Hfun|].
  destruct (operator =? "name").
  { destruct rest as [|v ?]; [apply Hthrow|].
    destruct (mkstr v); [|apply Hthrow].
    destruct (map_constant a); apply Hwrite. }
  destruct (prefix "const:" operator).
  { destruct rest as [|v ?]; [apply Hthrow|].
    destruct (operator =? "const:bool"); [apply Hwrite|].
    destruct ((operator =? "const:complex") || (operator =? "const:rational"));
      [apply Hbin|].
    destruct (operator =? "const:enotation"); [apply Hbin|].
    destruct (mkstr v); [apply Hwrite | apply Hthrow]. }
  destruct (operator =? "case").
  { unfold _send_case. apply (element_open "piecewise").
    apply closes_open. now apply closes_send_case_rest. }
  destruct (slice_to 4 operator =? "list"); [apply Hlist|].
  destruct (slice_to 9 operator =? "interval:"); [apply Hlist|].
  apply Hfun.
Qed.

Lemma one_element_character (elem : pyval) :
  level (character_to_sax elem)
  /\ (raised (character_to_sax elem) = None ->
      one_element (sent (character_to_sax elem)) = true).
Proof.
  destruct elem as [[|c [|? ?]]| | | | |]; try (split; intros Hr; discriminate Hr).
  apply one_element_dispatch. constructor.
Qed.

Lemma one_element_string (tree : string) :
  level (string_to_sax tree)
  /\ (raised (string_to_sax tree) = None ->
      one_element (sent (string_to_sax tree)) = true).
Proof.
  destruct tree as [|c tree]; [split; intros Hr; discriminate Hr|].
  apply one_element_dispatch. apply Forall_forall. intros x _.
  apply one_element_character.
Qed.

Lemma one_element_walk (tree : pyval) :
  level (_recursive_tree_to_sax tree)
  /\ (raised (_recursive_tree_to_sax tree) = None ->
      one_element (sent (_recursive_tree_to_sax tree)) = true).
Proof.
  induction tree as [str| | | | |items IH] using pyval_nested_ind;
    try (split; intros Hr; discriminate Hr).
  - apply one_element_string.
  - destruct items as [|[op| | | | |] rest];
      try (split; intros Hr; discriminate Hr).
    cbn [_recursive_tree_to_sax]. apply one_element_dispatch.
    inversion_clear IH as [|? ? _ IH'].
    revert IH'. apply Forall_impl. tauto.
Qed.

(** X2: a walk that ends normally has sent exactly one element: the first
    event opens it, the last event closes it, and it is not closed before.
    The document [tree_to_sax] describes has a single root. *)
Theorem walk_sends_one_element (tree : pyval) :
  raised (_recursive_tree_to_sax tree) = None ->
  one_element (sent (_recursive_tree_to_sax tree)) = true.
Proof. intros H. now apply one_element_walk. Qed.

Lemma walk_sends_one_element_witness :
  raised (_recursive_tree_to_sax
            (Apply "+" [Name "x"; Case (Name "c") (Const "integer" (VInt 1))])) = None
  /\ one_element
       (sent (_recursive_tree_to_sax
                (Apply "+" [Name "x"; Case (Name "c") (Const "integer" (VInt 1))])))
     = true.
Proof.
  split; [reflexivity | apply walk_sends_one_element; reflexivity].
Defined.

(** ** Binary constants that are not pairs *)

(** X3: a complex, rational or e-notation constant needs a value of two
    parts.  A value that cannot be iterated (a number, a boolean) makes the
    walk raise NotImplementedError before anything is sent; a sequence of
    fewer than two parts makes it raise IndexError after the cn element has
    been opened, which is then never closed. *)
Theorem binary_constant_needs_two_parts (kind : string) (part : pyval) (text : string) :
  In kind ["complex"; "rational"; "enotation"] ->
  mkstr part = Ok text ->
  let typename := if kind =? "enotation" then "e-notation" else kind in
  (forall v, py_tuple v = None ->
     _recursive_tree_to_sax (Const kind v) = throw (NotImplementedError ConstantPair))
  /\ _recursive_tree_to_sax (Const kind (VList []))
     = Sax [startElementNS (MATHML_NAMESPACE_URI, "cn") "cn" [("type", typename)]]
           (Some IndexError)
  /\ _recursive_tree_to_sax (Const kind (VList [part]))
     = Sax [startElementNS (MATHML_NAMESPACE_URI, "cn") "cn" [("type", typename)];
            characters text;
            startElementNS (MATHML_NAMESPACE_URI, "sep") "sep" [];
            endElementNS (MATHML_NAMESPACE_URI, "sep") "sep"]
           (Some IndexError).
Proof.
  intros Hkind Hpart typename. subst typename.
  assert (E : forall v,
             _recursive_tree_to_sax (Const kind v)
             = _send_bin_constant (if kind =? "enotation" then "e-notation" else kind) v)
    by (intros v; cbn in Hkind;
        destruct Hkind as [<-|[<-|[<-|[]]]]; reflexivity).
  repeat split.
  - intros v Hv. rewrite E. unfold _send_bin_constant. now rewrite Hv.
  - now rewrite E.
  - rewrite E. unfold _send_bin_constant. cbn [py_tuple map_result].
    now rewrite Hpart.
Qed.

Lemma binary_constant_needs_two_parts_witness :
  In "complex" ["complex"; "rational"; "enotation"]
  /\ mkstr (VInt 3) = Ok "3"
  /\ _recursive_tree_to_sax (Const "complex" (VInt 3))
     = throw (NotImplementedError ConstantPair)
  /\ _recursive_tree_to_sax (Const "complex" (VList [VInt 3]))
     = Sax [startElementNS (MATHML_NAMESPACE_URI, "cn") "cn" [("type", "complex")];
            characters "3";
            startElementNS (MATHML_NAMESPACE_URI, "sep") "sep" [];
            endElementNS (MATHML_NAMESPACE_URI, "sep") "sep"]
           (Some IndexError).
Proof.
  assert (Hk : In "complex" ["complex"; "rational"; "enotation"]) by (now left).
  assert (Hp : mkstr (VInt 3) = Ok "3") by reflexivity.
  pose proof (binary_constant_needs_two_parts "complex" (VInt 3) "3" Hk Hp) as H.
  cbv zeta in H. destruct H as (H1 & _ & H3).
  split; [exact Hk|]. split; [exact Hp|].
  split; [exact (H1 (VInt 3) eq_refl) | exact H3].
Defined.

(** ** Operands after a failure *)

Lemma seq_raised_l (a b : sax) (e : exn) : raised a = Some e -> a ;; b = a.
Proof. unfold seq. now intros ->. Qed.

Lemma raised_seq_r (a b : sax) : raised a = None -> raised (a ;; b) = raised b.
Proof. unfold seq. now intros ->. Qed.

Lemma for_each_stops (f : pyval -> sax) (good after : list pyval) (bad : pyval)
    (e : exn) :
  Forall (fun x => raised (f x) = None) good ->
  raised (f bad) = Some e ->
  for_each f (good ++ bad :: after) = for_each f (good ++ [bad])
  /\ raised (for_each f (good ++ bad :: after)) = Some e.
Proof.
  intros Hgood Hbad. induction Hgood as [|x good Hx _ [IH1 IH2]]; cbn [app for_each].
  - rewrite !(seq_raised_l _ _ e Hbad). now split.
  - rewrite IH1. split; [reflexivity|].
    rewrite <- IH1. now rewrite raised_seq_r.
Qed.

(** X4: the operands of an operator, a function call, a list or an
    interval are walked from left to right and the walk stops at the first
    one that raises: the operands after it are never looked at (the events
    are those of the node cut after the failing operand) and the exception
    is that operand's. *)
Theorem operands_after_a_failure_are_not_walked (operator : string)
    (good after : list pyval) (bad : pyval) (e : exn) :
  (operator =? "name") = false ->
  prefix "const:" operator = false ->
  (operator =? "case") = false ->
  Forall (fun x => raised (_recursive_tree_to_sax x) = None) good ->
  raised (_recursive_tree_to_sax bad) = Some e ->
  _recursive_tree_to_sax (VList (VStr operator :: good ++ bad :: after))
  = _recursive_tree_to_sax (VList (VStr operator :: good ++ [bad]))
  /\ raised (_recursive_tree_to_sax (VList (VStr operator :: good ++ bad :: after)))
     = Some e.
Proof.
  intros Hname Hconst Hcase Hgood Hbad.
  destruct (for_each_stops _recursive_tree_to_sax good after bad e Hgood Hbad)
    as [Hsame Hraised].
  cbn [_recursive_tree_to_sax]. unfold dispatch.
  rewrite Hname, Hconst, Hcase.
  unfold _send_function, _send_list. rewrite Hsame. split; [reflexivity|].
  rewrite <- Hsame.
  destruct (map_operator operator);
    [|destruct (slice_to 4 operator =? "list");
      [|destruct (slice_to 9 operator =? "interval:")]];
    repeat (rewrite raised_seq_r by (reflexivity || apply raised_write_element));
    unfold seq; now rewrite Hraised.
Qed.

Lemma operands_after_a_failure_are_not_walked_witness :
  ("+" =? "name") = false
  /\ prefix "const:" "+" = false
  /\ ("+" =? "case") = false
  /\ Forall (fun x => raised (_recursive_tree_to_sax x) = None) [Name "a"]
  /\ raised (_recursive_tree_to_sax (VList [VStr "name"])) = Some IndexError
  /\ _recursive_tree_to_sax
       (VList (VStr "+" :: [Name "a"] ++ VList [VStr "name"] :: [Name "b"; VInt 7]))
     = _recursive_tree_to_sax (VList (VStr "+" :: [Name "a"] ++ [VList [VStr "name"]]))
  /\ raised (_recursive_tree_to_sax
               (VList (VStr "+" :: [Name "a"] ++ VList [VStr "name"] :: [Name "b"; VInt 7])))
     = Some IndexError.
Proof.
  assert (Hg : Forall (fun x => raised (_recursive_tree_to_sax x) = None) [Name "a"])
    by (repeat constructor).
  do 5 (split; [first [reflexivity | exact Hg]|]).
  exact (operands_after_a_failure_are_not_walked "+" [Name "a"] [Name "b"; VInt 7]
           (VList [VStr "name"]) IndexError eq_refl eq_refl eq_refl Hg eq_refl).
Defined.

(** ** Trees that share their markup *)

Lemma emit_extract_same_events (iteritems : dict -> list (string * string))
    (t1 t2 : pyval) :
  _recursive_tree_to_sax t1 = _recursive_tree_to_sax t2 ->
  emit_extract iteritems t1 = emit_extract iteritems t2.
Proof. intros H. unfold emit_extract, tree_to_sax. now rewrite H. Qed.

(** X5: an interval tag without a closure, [interval:], is emitted with
    the closure [closed], like [interval:closed]; what comes back from
    emission and extraction is the interval tagged [interval:closed]. *)
Theorem interval_closure_defaults_to_closed (iteritems : dict -> list (string * string))
    (items : list pyval) :
  iteration_order iteritems ->
  _recursive_tree_to_sax (Interval "" items)
  = _recursive_tree_to_sax (Interval "closed" items)
  /\ (forallb (canonical iteritems) items = true ->
      emit_extract iteritems (Interval "" items) = Ok (Interval "closed" items)).
Proof.
  intros order.
  assert (E : _recursive_tree_to_sax (Interval "" items)
              = _recursive_tree_to_sax (Interval "closed" items)) by reflexivity.
  split; [exact E|]. intros H.
  rewrite (emit_extract_same_events _ _ _ E).
  apply round_trips_emit_extract, canonical_round_trips; [assumption|].
  exact H.
Qed.

Lemma interval_closure_defaults_to_closed_witness :
  iteration_order (fun d => d)
  /\ forallb (canonical (fun d => d)) [Name "a"; Const "integer" (VInt 2)] = true
  /\ _recursive_tree_to_sax (Interval "" [Name "a"; Const "integer" (VInt 2)])
     = _recursive_tree_to_sax (Interval "closed" [Name "a"; Const "integer" (VInt 2)])
  /\ emit_extract (fun d => d) (Interval "" [Name "a"; Const "integer" (VInt 2)])
     = Ok (Interval "closed" [Name "a"; Const "integer" (VInt 2)]).
Proof.
  split; [exact written_order|]. split; [reflexivity|].
  destruct (interval_closure_defaults_to_closed (fun d => d)
              [Name "a"; Const "integer" (VInt 2)] written_order) as [Hsame Hback].
  split; [exact Hsame | exact (Hback eq_refl)].
Defined.

(** X6: the emitter takes every operator that starts with [list] for the
    list tag: a call of a function named, say, [listsum] is emitted as a
    list element, the identifier is lost, and what comes back is the list
    of the operands. *)
Theorem list_prefix_is_a_list (iteritems : dict -> list (string * string))
    (operator : string) (rest : list pyval) :
  iteration_order iteritems ->
  slice_to 4 operator = "list" ->
  _recursive_tree_to_sax (Apply operator rest) = _recursive_tree_to_sax (ListOf rest)
  /\ (forallb (canonical iteritems) rest = true ->
      emit_extract iteritems (Apply operator rest) = Ok (ListOf rest)).
Proof.
  intros order Hop.
  assert (E : _recursive_tree_to_sax (Apply operator rest)
              = _recursive_tree_to_sax (ListOf rest)).
  { pose proof (slice_to_from 4 operator) as Hs. rewrite Hop in Hs.
    set (tail := slice_from 4 operator) in *. clearbody tail. subst operator.
    cbn [Apply ListOf _recursive_tree_to_sax]. unfold dispatch.
    cbn -[_send_list _send_function _send_case].
    replace (substring 0 0 tail) with "" by (now destruct tail).
    reflexivity. }
  split; [exact E|]. intros H.
  rewrite (emit_extract_same_events _ _ _ E).
  apply round_trips_emit_extract, canonical_round_trips; [assumption|].
  exact H.
Qed.

Lemma list_prefix_is_a_list_witness :
  iteration_order (fun d => d)
  /\ slice_to 4 "listsum" = "list"
  /\ forallb (canonical (fun d => d)) [Name "a"; Name "b"] = true
  /\ _recursive_tree_to_sax (Apply "listsum" [Name "a"; Name "b"])
     = _recursive_tree_to_sax (ListOf [Name "a"; Name "b"])
  /\ emit_extract (fun d => d) (Apply "listsum" [Name "a"; Name "b"])
     = Ok (ListOf [Name "a"; Name "b"]).
Proof.
  split; [exact written_order|]. split; [reflexivity|]. split; [reflexivity|].
  destruct (list_prefix_is_a_list (fun d => d) "listsum" [Name "a"; Name "b"]
              written_order eq_refl) as [Hsame Hback].
  split; [exact Hsame | exact (Hback eq_refl)].
Defined.

(** X7: a function whose identifier is an element name of the operator
    table ([plus], [minus], ...) is emitted exactly like the operator
    itself, so that emission and extraction turn the call [plus(a, b)] into
    the operation [a + b]. *)
Theorem element_name_is_the_operator (iteritems : dict -> list (string * string))
    (operator element : string) (rest : list pyval) :
  iteration_order iteritems ->
  map_operator operator = Some element ->
  element <> "neq" ->
  _recursive_tree_to_sax (Apply element rest) = _recursive_tree_to_sax (Apply operator rest)
  /\ (forallb (canonical iteritems) rest = true ->
      emit_extract iteritems (Apply element rest) = Ok (Apply operator rest)).
Proof.
  intros order Hop Hneq.
  assert (E : _recursive_tree_to_sax (Apply element rest)
              = _recursive_tree_to_sax (Apply operator rest)
              /\ canonical iteritems (Apply operator rest)
                 = forallb (canonical iteritems) rest).
  { unfold map_operator in Hop. cbn [dict_get _FUNCTION_MAP] in Hop.
    repeat match type of Hop with
           | context [String.eqb ?k operator] =>
             destruct (String.eqb_spec k operator) as [<-|_];
             [injection Hop as <-; first [now elim Hneq | split; reflexivity] |]
           end.
    discriminate Hop. }
  destruct E as [E Hc]. split; [exact E|]. intros H.
  rewrite (emit_extract_same_events _ _ _ E).
  apply round_trips_emit_extract, canonical_round_trips; [assumption|].
  now rewrite Hc.
Qed.

Lemma element_name_is_the_operator_witness :
  iteration_order (fun d => d)
  /\ map_operator "+" = Some "plus"
  /\ "plus" <> "neq"
  /\ forallb (canonical (fun d => d)) [Name "a"; Name "b"] = true
  /\ _recursive_tree_to_sax (Apply "plus" [Name "a"; Name "b"])
     = _recursive_tree_to_sax (Apply "+" [Name "a"; Name "b"])
  /\ emit_extract (fun d => d) (Apply "plus" [Name "a"; Name "b"])
     = Ok (Apply "+" [Name "a"; Name "b"]).
Proof.
  split; [exact written_order|]. split; [reflexivity|].
  split; [discriminate|]. split; [reflexivity|].
  assert (Hneq : "plus" <> "neq") by discriminate.
  destruct (element_name_is_the_operator (fun d => d) "+" "plus" [Name "a"; Name "b"]
              written_order eq_refl Hneq) as [Hsame Hback].
  split; [exact Hsame | exact (Hback eq_refl)].
Defined.

(** X8: on canonical trees emission loses nothing: two canonical trees
    for which [tree_to_sax] sends the same events are the same tree. *)
Theorem emission_is_injective_on_canonical_trees
    (iteritems : dict -> list (string * string)) (t1 t2 : pyval) :
  iteration_order iteritems ->
  canonical iteritems t1 = true ->
  canonical iteritems t2 = true ->
  tree_to_sax t1 = tree_to_sax t2 ->
  t1 = t2.
Proof.
  intros order H1 H2 E.
  pose proof (round_trips_emit_extract iteritems t1
                (canonical_round_trips iteritems order t1 H1)) as R1.
  pose proof (round_trips_emit_extract iteritems t2
                (canonical_round_trips iteritems order t2 H2)) as R2.
  unfold emit_extract in R1, R2. rewrite E in R1. congruence.
Qed.

Lemma emission_is_injective_on_canonical_trees_witness :
  iteration_order (fun d => d)
  /\ canonical (fun d => d) (Apply "*" [Name "pi"; Name "r"]) = true
  /\ tree_to_sax (Apply "*" [Name "pi"; Name "r"])
     = tree_to_sax (Apply "*" [Name "pi"; Name "r"])
  /\ Apply "*" [Name "pi"; Name "r"] = Apply "*" [Name "pi"; Name "r"].
Proof.
  split; [exact written_order|]. split; [reflexivity|]. split; [reflexivity|].
  apply (emission_is_injective_on_canonical_trees (fun d => d));
    [exact written_order | reflexivity | reflexivity | reflexivity].
Defined.

(** * Further properties of the extractor *)

(** ** The inverted tables *)

(** X9: the constant table and its inversion are inverse to each other,
    whatever the iteration order: a name is mapped to an element exactly
    when [dom_to_tree] maps that element back to the name. *)
Theorem inverted_constant_table (iteritems : dict -> list (string * string))
    (name element : string) :
  iteration_order iteritems ->
  map_constant name = Some element <-> dom_map_constant iteritems element = Some name.
Proof.
  intros order. rewrite (dom_map_constant_spec _ order).
  unfold map_constant. cbn [dict_get _ELEMENT_CONSTANT_MAP]. split; intros H.
  - repeat match type of H with
           | context [String.eqb ?k name] =>
             destruct (String.eqb_spec k name) as [<-|_];
             [injection H as <-; reflexivity |]
           end.
    discriminate H.
  - repeat match type of H with
           | context [String.eqb ?k element] =>
             destruct (String.eqb_spec k element) as [<-|_];
             [injection H as <-; reflexivity |]
           end.
    discriminate H.
Qed.

Lemma inverted_constant_table_witness :
  iteration_order (fun d => d)
  /\ (map_constant "e" = Some "exponentiale"
      <-> dom_map_constant (fun d => d) "exponentiale" = Some "e").
Proof.
  split; [exact written_order|].
  exact (inverted_constant_table (fun d => d) "e" "exponentiale" written_order).
Defined.

(** X10: whatever the iteration order, the inverted operator table gives
    back the symbol of every element name but neq, and leaves every name
    that is no element name of the table as it is (the default of
    [map_operator(name, name)]). *)
Theorem inverted_operator_table (iteritems : dict -> list (string * string))
    (name default : string) :
  iteration_order iteritems ->
  name <> "neq" ->
  (forall symbol, map_operator symbol = Some name ->
     dom_map_operator iteritems name default = symbol)
  /\ ((forall symbol, map_operator symbol <> Some name) ->
      dom_map_operator iteritems name default = default).
Proof.
  intros order Hneq. split.
  - intros symbol H. rewrite (dom_map_operator_spec _ order) by assumption.
    unfold map_operator in H. cbn [dict_get _FUNCTION_MAP] in H.
    repeat match type of H with
           | context [String.eqb ?k symbol] =>
             destruct (String.eqb_spec k symbol) as [Hk|_];
             [subst symbol; injection H as <-;
              first [reflexivity | now elim Hneq] |]
           end.
    discriminate H.
  - intros H. unfold dom_map_operator.
    destruct (dict_get (inverted iteritems _FUNCTION_MAP) name) as [n|] eqn:E;
      [|reflexivity].
    apply (inverted_sound _ order) in E. exfalso. apply (H n).
    cbn in E.
    repeat (destruct E as [E|E]; [injection E as <- <-; reflexivity|]).
    destruct E.
Qed.

Lemma inverted_operator_table_witness :
  iteration_order (fun d => d)
  /\ "geq" <> "neq"
  /\ (forall symbol, map_operator symbol = Some "geq" ->
        dom_map_operator (fun d => d) "geq" "geq" = symbol)
  /\ ((forall symbol, map_operator symbol <> Some "geq") ->
      dom_map_operator (fun d => d) "geq" "geq" = "geq").
Proof.
  split; [exact written_order|]. split; [discriminate|].
  apply inverted_operator_table; [exact written_order | discriminate].
Defined.

(** ** Elements outside the vocabulary *)

(** X11: an element whose kind is none of the eleven kinds
    [_recursive_dom_to_tree] has a branch for is rejected with
    NotImplementedError, whatever its attributes and children; so are
    [piece], [otherwise] and [sep] elements met outside their parents. *)
Theorem unsupported_elements_are_rejected (iteritems : dict -> list (string * string))
    (mtype : string) (attrs : attributes) (children : list node) :
  iteration_order iteritems ->
  existsb (String.eqb mtype) supported_elements = false ->
  dom_to_tree iteritems (Element mtype attrs children)
  = Raise (NotImplementedError (ElementNotSupported mtype)).
Proof.
  intros order H. cbn [existsb supported_elements] in H.
  rewrite !orb_false_iff in H.
  destruct H as (Ht & Hf & Hpi & Hi & He & Hci & Hcn & Hap & Hpw & Hl & Hin & _).
  rewrite extract_element. unfold element_to_tree.
  rewrite (dom_map_constant_spec _ order). cbn [dict_get].
  rewrite (String.eqb_sym "true"), Ht, (String.eqb_sym "false"), Hf,
    (String.eqb_sym "pi"), Hpi, (String.eqb_sym "imaginaryi"), Hi,
    (String.eqb_sym "exponentiale"), He.
  now rewrite Hci, Hcn, Hap, Hpw, Hl, Hin.
Qed.

Lemma unsupported_elements_are_rejected_witness :
  iteration_order (fun d => d)
  /\ existsb (String.eqb "piece") supported_elements = false
  /\ dom_to_tree (fun d => d)
       (Element "piece" [] [Element "ci" [] [Text "v"]; Element "ci" [] [Text "c"]])
     = Raise (NotImplementedError (ElementNotSupported "piece")).
Proof.
  split; [exact written_order|]. split; [reflexivity|].
  apply unsupported_elements_are_rejected; [exact written_order | reflexivity].
Defined.

(** ** Piecewise elements in general *)

Lemma collect_children (rec : node -> result pyval) (children : list node)
    (items : list ((pyval * pyval) + pyval)) :
  Forall2 (extracts_child rec) children items ->
  forall acc,
    collect rec children acc
    = Ok (fst acc ++ clauses_of items, last_default items (snd acc)).
Proof.
  induction 1 as [|child item children items Hc _ IH]; intros acc.
  - cbn. rewrite app_nil_r. now destruct acc.
  - destruct Hc as [attrs v c value condition Hv Hcd|attrs fc others d Hd].
    + cbn [collect String.eqb Ascii.eqb Bool.eqb piece_clause].
      rewrite Hv, Hcd. cbn [bind]. rewrite IH. cbn [fst snd clauses_of last_default].
      now rewrite <- app_assoc.
    + cbn [collect String.eqb Ascii.eqb Bool.eqb].
      rewrite Hd. cbn [bind]. now rewrite IH.
Qed.

Lemma last_default_extracted (rec : node -> result pyval) (children : list node)
    (items : list ((pyval * pyval) + pyval)) :
  Forall2 (extracts_child rec) children items ->
  forall init d,
    last_default items init = Some d ->
    init = Some d \/ exists element, rec element = Ok d.
Proof.
  induction 1 as [|child item children items Hc _ IH]; intros init d;
    cbn [last_default]; [now left|].
  destruct Hc as [attrs v c value condition Hv Hcd|attrs fc others d' Hd].
  - apply IH.
  - intros H. apply IH in H as [[= <-]|H]; right; [now exists fc | exact H].
Qed.

(** X12: the children of a piecewise element may be pieces and otherwise
    elements in any order.  The pieces give the nested cases in their order;
    the default is that of the last otherwise element, wherever it stands,
    and only the first child of an otherwise element is read.  Without any
    piece the result is the default alone, and without any child the
    extraction raises IndexError. *)
Theorem piecewise_children_in_any_order (iteritems : dict -> list (string * string))
    (attrs : attributes) (children : list node)
    (items : list ((pyval * pyval) + pyval)) :
  iteration_order iteritems ->
  Forall2 (extracts_child (_recursive_dom_to_tree iteritems)) children items ->
  dom_to_tree iteritems (Element "piecewise" attrs children)
  = match clauses_of items, last_default items None with
    | [], None => Raise IndexError
    | [], Some default => Ok default
    | clause :: more, default => Ok (nested_case clause more default)
    end.
Proof.
  intros order H. rewrite extract_piecewise by assumption.
  rewrite (collect_children _ _ _ H). cbn [bind fst snd app]. unfold finish.
  destruct (last_default items None) as [d|] eqn:Hd.
  - destruct (last_default_extracted _ _ _ H _ _ Hd) as [[=]|[element He]].
    rewrite (extracted_truthy _ _ _ He). now destruct (clauses_of items).
  - now destruct (clauses_of items).
Qed.

Lemma piecewise_children_in_any_order_witness :
  iteration_order (fun d => d)
  /\ Forall2 (extracts_child (_recursive_dom_to_tree (fun d => d)))
       [Element "otherwise" [] [Element "ci" [] [Text "first"]];
        Element "piece" [] [Element "ci" [] [Text "v1"]; Element "ci" [] [Text "c1"]];
        Element "otherwise" [] [Element "ci" [] [Text "last"]; Element "junk" [] []];
        Element "piece" [] [Element "ci" [] [Text "v2"]; Element "ci" [] [Text "c2"]]]
       [inr (Name "first"); inl (Name "c1", Name "v1");
        inr (Name "last"); inl (Name "c2", Name "v2")]
  /\ dom_to_tree (fun d => d)
       (Element "piecewise" []
          [Element "otherwise" [] [Element "ci" [] [Text "first"]];
           Element "piece" [] [Element "ci" [] [Text "v1"]; Element "ci" [] [Text "c1"]];
           Element "otherwise" [] [Element "ci" [] [Text "last"]; Element "junk" [] []];
           Element "piece" [] [Element "ci" [] [Text "v2"]; Element "ci" [] [Text "c2"]]])
     = Ok (CaseElse (Name "c1") (Name "v1")
             (CaseElse (Name "c2") (Name "v2") (Name "last"))).
Proof.
  split; [exact written_order|].
  assert (H : Forall2 (extracts_child (_recursive_dom_to_tree (fun d => d)))
       [Element "otherwise" [] [Element "ci" [] [Text "first"]];
        Element "piece" [] [Element "ci" [] [Text "v1"]; Element "ci" [] [Text "c1"]];
        Element "otherwise" [] [Element "ci" [] [Text "last"]; Element "junk" [] []];
        Element "piece" [] [Element "ci" [] [Text "v2"]; Element "ci" [] [Text "c2"]]]
       [inr (Name "first"); inl (Name "c1", Name "v1");
        inr (Name "last"); inl (Name "c2", Name "v2")]).
  { constructor; [apply extracts_child_otherwise; reflexivity|].
    constructor; [apply extracts_child_piece; reflexivity|].
    constructor; [apply extracts_child_otherwise; reflexivity|].
    constructor; [apply extracts_child_piece; reflexivity | constructor]. }
  split; [exact H|].
  exact (piecewise_children_in_any_order (fun d => d) [] _ _ written_order H).
Defined.

(** X13: a child of a piecewise element that is neither a piece nor an
    otherwise element makes the extraction raise NotImplementedError, once
    the children before it have been extracted; the children after it are
    not looked at. *)
Theorem unknown_child_of_piecewise (iteritems : dict -> list (string * string))
    (attrs cattrs : attributes) (name : string)
    (before cchildren after : list node) (items : list ((pyval * pyval) + pyval)) :
  iteration_order iteritems ->
  Forall2 (extracts_child (_recursive_dom_to_tree iteritems)) before items ->
  (name =? "piece") = false ->
  (name =? "otherwise") = false ->
  dom_to_tree iteritems
    (Element "piecewise" attrs (before ++ Element name cattrs cchildren :: after))
  = Raise (NotImplementedError (UnknownInPiecewise name)).
Proof.
  intros order H Hp Ho. rewrite extract_piecewise, collect_app by assumption.
  rewrite (collect_children _ _ _ H). cbn [bind collect]. now rewrite Hp, Ho.
Qed.

Lemma unknown_child_of_piecewise_witness :
  iteration_order (fun d => d)
  /\ Forall2 (extracts_child (_recursive_dom_to_tree (fun d => d)))
       [Element "piece" [] [Element "ci" [] [Text "v"]; Element "ci" [] [Text "c"]]]
       [inl (Name "c", Name "v")]
  /\ ("ci" =? "piece") = false
  /\ ("ci" =? "otherwise") = false
  /\ dom_to_tree (fun d => d)
       (Element "piecewise" []
          ([Element "piece" [] [Element "ci" [] [Text "v"]; Element "ci" [] [Text "c"]]]
           ++ Element "ci" [] [Text "x"] :: [Element "nonsense" [] []]))
     = Raise (NotImplementedError (UnknownInPiecewise "ci")).
Proof.
  split; [exact written_order|].
  assert (H : Forall2 (extracts_child (_recursive_dom_to_tree (fun d => d)))
       [Element "piece" [] [Element "ci" [] [Text "v"]; Element "ci" [] [Text "c"]]]
       [inl (Name "c", Name "v")])
    by (constructor; [apply extracts_child_piece; reflexivity | constructor]).
  split; [exact H|]. split; [reflexivity|]. split; [reflexivity|].
  exact (unknown_child_of_piecewise (fun d => d) [] [] "ci" _ [Text "x"]
           [Element "nonsense" [] []] _ written_order H eq_refl eq_refl).
Defined.

(** ** What extraction returns *)

Section NodeInduction.
Variable P : node -> Prop.
Hypothesis HText : forall data, P (Text data).
Hypothesis HElement : forall name attrs children,
    Forall P children -> P (Element name attrs children).

End NodeInduction.





(** ** Children that cannot be extracted *)

Lemma map_result_stops {A B} (f : A -> result B) (good after : list A) (bad : A)
    (ys : list B) (e : exn) :
  Forall2 (fun x y => f x = Ok y) good ys ->
  f bad = Raise e ->
  map_result f (good ++ bad :: after) = Raise e.
Proof.
  intros Hgood Hbad. induction Hgood as [|x y good ys Hx _ IH]; cbn [app map_result].
  - now rewrite Hbad.
  - now rewrite Hx, IH.
Qed.

(** X15: the operands of an apply element and the items of a list or an
    interval are extracted from left to right, and the exception of the
    first child that cannot be extracted is the exception of the whole
    element; for an interval it comes before the closure is read. *)
Theorem first_child_that_fails (iteritems : dict -> list (string * string))
    (attrs oattrs : attributes) (name : string) (good after : list node)
    (bad : node) (trees : list pyval) (e : exn) :
  iteration_order iteritems ->
  Forall2 (fun x y => _recursive_dom_to_tree iteritems x = Ok y) good trees ->
  _recursive_dom_to_tree iteritems bad = Raise e ->
  dom_to_tree iteritems
    (Element "apply" attrs (Element name oattrs [] :: good ++ bad :: after))
  = Raise e
  /\ dom_to_tree iteritems (Element "list" attrs (good ++ bad :: after)) = Raise e
  /\ dom_to_tree iteritems (Element "interval" attrs (good ++ bad :: after)) = Raise e.
Proof.
  intros order Hgood Hbad.
  pose proof (map_result_stops _ good after bad trees e Hgood Hbad) as H.
  split; [|split].
  - rewrite (extract_apply _ order). now rewrite H.
  - rewrite extract_element. unfold element_to_tree.
    rewrite (dom_map_constant_spec _ order).
    cbn [dict_get String.eqb Ascii.eqb Bool.eqb]. now rewrite H.
  - rewrite (extract_interval _ order). now rewrite H.
Qed.

Lemma first_child_that_fails_witness :
  iteration_order (fun d => d)
  /\ Forall2 (fun x y => _recursive_dom_to_tree (fun d => d) x = Ok y)
       [Element "ci" [] [Text "a"]] [Name "a"]
  /\ _recursive_dom_to_tree (fun d => d) (Element "ci" [] []) = Raise AttributeError
  /\ dom_to_tree (fun d => d)
       (Element "apply" []
          (Element "sin" [] []
             :: [Element "ci" [] [Text "a"]] ++ Element "ci" [] [] :: [Element "bogus" [] []]))
     = Raise AttributeError
  /\ dom_to_tree (fun d => d)
       (Element "list" []
          ([Element "ci" [] [Text "a"]] ++ Element "ci" [] [] :: [Element "bogus" [] []]))
     = Raise AttributeError
  /\ dom_to_tree (fun d => d)
       (Element "interval" []
          ([Element "ci" [] [Text "a"]] ++ Element "ci" [] [] :: [Element "bogus" [] []]))
     = Raise AttributeError.
Proof.
  split; [exact written_order|].
  assert (Hg : Forall2 (fun x y => _recursive_dom_to_tree (fun d => d) x = Ok y)
                 [Element "ci" [] [Text "a"]] [Name "a"])
    by (repeat constructor).
  split; [exact Hg|]. split; [reflexivity|].
  exact (first_child_that_fails (fun d => d) [] [] "sin" _ [Element "bogus" [] []]
           (Element "ci" [] []) _ AttributeError written_order Hg eq_refl).
Defined.

(** ** The value of a case comes first *)

(** X16: [_send_case] walks the value of a case before its condition: when
    the value raises, the walk ends inside the piece element with the
    exception of the value, and neither the condition nor the default is
    looked at. *)
Theorem case_value_is_walked_first (condition value : pyval) (more : list pyval)
    (e : exn) :
  raised (_recursive_tree_to_sax value) = Some e ->
  _recursive_tree_to_sax (VList (VStr "case" :: condition :: value :: more))
  = (_open_tag "piecewise" NO_ATTR ;;
     _open_tag "piece" NO_ATTR ;;
     _recursive_tree_to_sax value)
  /\ raised (_recursive_tree_to_sax (VList (VStr "case" :: condition :: value :: more)))
     = Some e.
Proof.
  intros H.
  assert (E : _recursive_tree_to_sax (VList (VStr "case" :: condition :: value :: more))
              = (_open_tag "piecewise" NO_ATTR ;;
                 _open_tag "piece" NO_ATTR ;;
                 _recursive_tree_to_sax value)).
  { cbn [_recursive_tree_to_sax].
    change (dispatch ?r "case" ?x) with (_send_case r x).
    unfold _send_case. now rewrite (seq_raised_l _ _ e H). }
  split; [exact E|]. rewrite E.
  now rewrite !raised_seq_r by reflexivity.
Qed.

Lemma case_value_is_walked_first_witness :
  raised (_recursive_tree_to_sax (VList [VStr "name"])) = Some IndexError
  /\ _recursive_tree_to_sax
       (VList (VStr "case" :: VInt 0 :: VList [VStr "name"] :: [VInt 1]))
     = (_open_tag "piecewise" NO_ATTR ;;
        _open_tag "piece" NO_ATTR ;;
        _recursive_tree_to_sax (VList [VStr "name"]))
  /\ raised (_recursive_tree_to_sax
               (VList (VStr "case" :: VInt 0 :: VList [VStr "name"] :: [VInt 1])))
     = Some IndexError.
Proof.
  split; [reflexivity|].
  exact (case_value_is_walked_first (VInt 0) (VList [VStr "name"]) [VInt 1]
           IndexError eq_refl).
Defined.
